(** * MobileNet / FD-MobileNet model definition (mobilenet.py)

    A shallow embedding of the graph-construction logic of [mobilenet.py]:
    the module tree built by [MobileNet.__init__], the name-driven
    initialisation pass [_init_params], the architecture factory
    [get_mobilenet] with its eight named variants, and the latent/end
    re-partitioning done by [MyMobilenetV1].

    Python integers are [Z], Python floats are IEEE-754 binary64 values
    ([spec_float] with precision 53 and maximal exponent 1024), strings are
    [string], and a raised exception is the left injection of [result]. *)

From Stdlib Require Import ZArith List String Ascii Bool Lia Arith.
From Stdlib Require Import QArith Qround Qpower.
From Stdlib Require Import DecimalNat DecimalString.
From Stdlib Require Import SpecFloat.
Import ListNotations.

Set Warnings "-register-all".

Local Open Scope string_scope.
Local Open Scope Z_scope.

(** ** Exceptions and the error monad *)

Inductive exn : Type :=
| IndexError
| AttributeError
| OverflowError
| ValueError (msg : string)
| RuntimeError (msg : string)
| ExternalError (msg : string).

Definition result (A : Type) : Type := (exn + A)%type.

Definition ret {A : Type} (a : A) : result A := inr a.
Definition raise {A : Type} (e : exn) : result A := inl e.

Definition bind {A B : Type} (m : result A) (k : A -> result B) : result B :=
  match m with
  | inl e => inl e
  | inr a => k a
  end.

Notation "x <- m ;; k" := (bind m (fun x => k))
  (at level 61, m at next level, right associativity).

Fixpoint mapM {A B : Type} (f : A -> result B) (l : list A) : result (list B) :=
  match l with
  | [] => ret []
  | a :: l' => b <- f a ;; bs <- mapM f l' ;; ret (b :: bs)
  end.

(** A [for] loop whose body may raise: the state after the last iteration,
    or the first exception. *)
Fixpoint foldM {A S : Type} (f : S -> A -> result S) (l : list A) (s : S) : result S :=
  match l with
  | [] => ret s
  | a :: l' => s' <- f s a ;; foldM f l' s'
  end.

(** ** Python helpers *)

(** [enumerate(l)] *)
Definition enumerate {A : Type} (l : list A) : list (nat * A) :=
  combine (seq 0 (List.length l)) l.

(** ["{}".format(n)] for a non-negative integer. *)
Definition format_nat (n : nat) : string :=
  NilEmpty.string_of_uint (Nat.to_uint n).

(** [s.startswith(pat)] *)
Fixpoint starts_with (pat s : string) : bool :=
  match pat, s with
  | EmptyString, _ => true
  | String _ _, EmptyString => false
  | String a pat', String b s' => Ascii.eqb a b && starts_with pat' s'
  end.

(** [pat in s] on strings: [pat] starts at some position of [s]. *)
Fixpoint contains (pat s : string) : bool :=
  starts_with pat s ||
  match s with
  | EmptyString => false
  | String _ s' => contains pat s'
  end.

(** [l[0]] *)
Definition first {A : Type} (l : list A) : result A :=
  match l with
  | [] => raise IndexError
  | a :: _ => ret a
  end.

(** ** The module tree *)

Inductive layer : Type :=
| Conv2d (in_channels out_channels kernel_size stride groups : Z)
| BatchNorm2d (num_features : Z)
| ReLU
| AvgPool2d (kernel_size stride : Z)
| Linear (in_features out_features : Z) (has_bias : bool)
| Sequential
| ConvBlock
| DwsConvBlockL
| MobileNetL.

Inductive module : Type :=
| Module (l : layer) (children : list (string * module)).

Definition layer_of (m : module) : layer :=
  match m with Module l _ => l end.

Definition children (m : module) : list (string * module) :=
  match m with Module _ cs => cs end.

(** [self._modules[name] = m]: an ordered dictionary keeps the position of
    a key that is already present and appends a new one. *)
Fixpoint add_module (name : string) (m : module)
         (cs : list (string * module)) : list (string * module) :=
  match cs with
  | [] => [(name, m)]
  | (n, c) :: cs' =>
      if String.eqb n name then (n, m) :: cs'
      else (n, c) :: add_module name m cs'
  end.

Fixpoint get_module (name : string) (cs : list (string * module)) : option module :=
  match cs with
  | [] => None
  | (n, c) :: cs' => if String.eqb n name then Some c else get_module name cs'
  end.

(** *** Layer constructors of the framework

    [nn.Conv2d], [nn.BatchNorm2d] and [nn.Linear] check their arguments
    before they allocate their parameters.  A convolution tests, in this
    order, that [groups] is positive ([ValueError]), that it divides
    [in_channels] and that it divides [out_channels] ([ValueError] each
    time), and then allocates a weight of
    [out_channels x in_channels // groups x k x k] entries; a
    normalization layer allocates [num_features] entries and a linear
    layer [out_features x in_features].  Allocating a tensor with a
    negative dimension raises [RuntimeError]; its message, which goes on
    with the dimension and the shape, is cut after its fixed part here.  A
    dimension of zero is accepted.  On the positive divisors met here
    [mod] and [/] on [Z] are Python's [%] and [//]. *)
Definition negative_dimension : exn :=
  RuntimeError "Trying to create tensor with negative dimension".

Definition new_Conv2d (in_channels out_channels kernel_size stride groups : Z)
  : result module :=
  if groups <=? 0 then
    raise (ValueError "groups must be a positive integer")
  else if negb (in_channels mod groups =? 0) then
    raise (ValueError "in_channels must be divisible by groups")
  else if negb (out_channels mod groups =? 0) then
    raise (ValueError "out_channels must be divisible by groups")
  else if (out_channels <? 0) || (in_channels / groups <? 0) then
    raise negative_dimension
  else ret (Module (Conv2d in_channels out_channels kernel_size stride groups) []).

Definition new_BatchNorm2d (num_features : Z) : result module :=
  if num_features <? 0 then raise negative_dimension
  else ret (Module (BatchNorm2d num_features) []).

Definition new_Linear (in_features out_features : Z) (has_bias : bool) : result module :=
  if (out_features <? 0) || (in_features <? 0) then raise negative_dimension
  else ret (Module (Linear in_features out_features has_bias) []).

(** The exceptions these constructors raise. *)
Definition layer_error (e : exn) : Prop :=
  e = ValueError "groups must be a positive integer" \/
  e = ValueError "in_channels must be divisible by groups" \/
  e = ValueError "out_channels must be divisible by groups" \/
  e = negative_dimension.

(** *** Block builders

    Modelled from the spec: the builders [conv3x3_block],
    [dwconv3x3_block] and [conv1x1_block] are imported from [common], which
    is not part of the sources.  The spec describes each as a
    convolution + normalization + activation unit built from a
    channel/stride specification, which fails when the channel or stride
    values are rejected; the depthwise one has groups = input channels.
    The child names [conv] and [bn] are the ones [_init_params] matches
    on; the convolution carries no bias. *)
Definition conv_block (in_channels out_channels kernel_size stride groups : Z)
  : result module :=
  conv <- new_Conv2d in_channels out_channels kernel_size stride groups ;;
  bn <- new_BatchNorm2d out_channels ;;
  ret (Module ConvBlock [ ("conv", conv); ("bn", bn); ("activ", Module ReLU []) ]).

Definition conv1x1_block (in_channels out_channels : Z) : result module :=
  conv_block in_channels out_channels 1 1 1.

Definition conv3x3_block (in_channels out_channels stride : Z) : result module :=
  conv_block in_channels out_channels 3 stride 1.

Definition dwconv3x3_block (in_channels out_channels stride : Z) : result module :=
  conv_block in_channels out_channels 3 stride out_channels.

(** *** [DwsConvBlock.__init__] *)
Definition DwsConvBlock (in_channels out_channels stride : Z) : result module :=
  dw_conv <- dwconv3x3_block in_channels in_channels stride ;;
  pw_conv <- conv1x1_block in_channels out_channels ;;
  ret (Module DwsConvBlockL [ ("dw_conv", dw_conv); ("pw_conv", pw_conv) ]).

(** *** The blocks that are built

    The module a block builder returns when it returns one. *)
Definition conv_block_tree (in_channels out_channels kernel_size stride groups : Z) : module :=
  Module ConvBlock
    [ ("conv", Module (Conv2d in_channels out_channels kernel_size stride groups) []);
      ("bn", Module (BatchNorm2d out_channels) []);
      ("activ", Module ReLU []) ].

Definition conv1x1_block_tree (in_channels out_channels : Z) : module :=
  conv_block_tree in_channels out_channels 1 1 1.

Definition conv3x3_block_tree (in_channels out_channels stride : Z) : module :=
  conv_block_tree in_channels out_channels 3 stride 1.

Definition dwconv3x3_block_tree (in_channels out_channels stride : Z) : module :=
  conv_block_tree in_channels out_channels 3 stride out_channels.

Definition DwsConvBlock_tree (in_channels out_channels stride : Z) : module :=
  Module DwsConvBlockL
    [ ("dw_conv", dwconv3x3_block_tree in_channels in_channels stride);
      ("pw_conv", conv1x1_block_tree in_channels out_channels) ].

(** ** [MobileNet.__init__]: the structure *)

(** The stride expression of the inner loop. *)
Definition unit_stride (i j : nat) (first_stage_stride : bool) : Z :=
  if (Nat.eqb j 0) && (negb (Nat.eqb i 0) || first_stage_stride) then 2 else 1.

(** One iteration of the inner loop; the state is the running
    [in_channels] and the children of [stage]. *)
Definition unit_step (i : nat) (first_stage_stride : bool)
           (st : Z * list (string * module)) (jc : nat * Z)
  : result (Z * list (string * module)) :=
  let '(in_channels, stage) := st in
  let '(j, out_channels) := jc in
  let stride := unit_stride i j first_stage_stride in
  unit <- DwsConvBlock in_channels out_channels stride ;;
  ret (out_channels, add_module ("unit" ++ format_nat (j + 1)) unit stage).

(** One iteration of the outer loop; the state is the running
    [in_channels] and the children of [self.features]. *)
Definition stage_step (first_stage_stride : bool)
           (st : Z * list (string * module)) (ic : nat * list Z)
  : result (Z * list (string * module)) :=
  let '(in_channels, features) := st in
  let '(i, channels_per_stage) := ic in
  st' <- foldM (unit_step i first_stage_stride)
               (enumerate channels_per_stage) (in_channels, []) ;;
  let '(in_channels', stage) := st' in
  ret (in_channels',
       add_module ("stage" ++ format_nat (i + 1)) (Module Sequential stage) features).

(** The module tree assembled by the constructor, before [_init_params]. *)
Definition build_modules (channels : list (list Z)) (first_stage_stride : bool)
           (in_channels num_classes : Z) : result module :=
  c0 <- first channels ;;
  init_block_channels <- first c0 ;;
  init_block <- conv3x3_block in_channels init_block_channels 2 ;;
  let features := add_module "init_block" init_block [] in
  let in_channels := init_block_channels in
  st <- foldM (stage_step first_stage_stride)
              (enumerate (tl channels)) (in_channels, features) ;;
  let '(in_channels, features) := st in
  let features := add_module "final_pool" (Module (AvgPool2d 7 1) []) features in
  output <- new_Linear in_channels num_classes true ;;
  ret (Module MobileNetL
         [ ("features", Module Sequential features);
           ("output", output) ]).

(** ** [named_modules] and the parameter store *)

(** The dotted path of a child: [prefix + ("." if prefix else "") + name]. *)
Definition submodule_name (prefix name : string) : string :=
  match prefix with
  | EmptyString => name
  | _ => prefix ++ "." ++ name
  end.

(** [named_modules(prefix)]: the module itself, then the named modules of
    each child in registration order. *)
Fixpoint named_modules (prefix : string) (m : module) : list (string * layer) :=
  match m with
  | Module l cs =>
      (prefix, l) ::
      (fix go (cs : list (string * module)) : list (string * layer) :=
         match cs with
         | [] => []
         | (n, c) :: cs' => (named_modules (submodule_name prefix n) c ++ go cs')%list
         end) cs
  end.

Inductive fan_mode : Type := fan_in | fan_out.

(** What a parameter tensor was last filled with: the value its layer's own
    constructor gave it, a [kaiming_normal_] draw, or a constant. *)
Inductive tensor_state : Type :=
| FrameworkDefault
| KaimingNormal (mode : fan_mode)
| Constant (c : Z).

(** The [weight] and [bias] attributes of a module; [None] when the module
    has no such attribute. *)
Record params : Type := mkParams { weight : option tensor_state; bias : option tensor_state }.

Definition fresh_params (l : layer) : params :=
  match l with
  | Conv2d _ _ _ _ _ => mkParams (Some FrameworkDefault) None
  | BatchNorm2d _ => mkParams (Some FrameworkDefault) (Some FrameworkDefault)
  | Linear _ _ b =>
      mkParams (Some FrameworkDefault) (if b then Some FrameworkDefault else None)
  | _ => mkParams None None
  end.

(** [init.kaiming_normal_(module.weight, mode=...)] *)
Definition kaiming_normal_weight (mode : fan_mode) (p : params) : result params :=
  match weight p with
  | None => raise AttributeError
  | Some _ => ret (mkParams (Some (KaimingNormal mode)) (bias p))
  end.

(** [init.constant_(module.weight, c)] *)
Definition constant_weight (c : Z) (p : params) : result params :=
  match weight p with
  | None => raise AttributeError
  | Some _ => ret (mkParams (Some (Constant c)) (bias p))
  end.

(** [init.constant_(module.bias, c)] *)
Definition constant_bias (c : Z) (p : params) : result params :=
  match bias p with
  | None => raise AttributeError
  | Some _ => ret (mkParams (weight p) (Some (Constant c)))
  end.

(** The body of the loop of [_init_params] for one [(name, module)]. *)
Definition init_module (name : string) (p : params) : result params :=
  if contains "dw_conv.conv" name then
    kaiming_normal_weight fan_in p
  else if String.eqb name "init_block.conv" || contains "pw_conv.conv" name then
    kaiming_normal_weight fan_out p
  else if contains "bn" name then
    p <- constant_weight 1 p ;; constant_bias 0 p
  else if contains "output" name then
    p <- kaiming_normal_weight fan_out p ;; constant_bias 0 p
  else ret p.

(** The parameter store of a network: for every named module, in
    [named_modules] order, its layer and the state of its parameters. *)
Definition store : Type := list (string * (layer * params)).

Definition fresh_store (m : module) : store :=
  map (fun nl => (fst nl, (snd nl, fresh_params (snd nl)))) (named_modules "" m).

(** [_init_params]: every named module is visited once. *)
Definition _init_params (st : store) : result store :=
  mapM (fun e => let '(name, (l, p)) := e in
                 p' <- init_module name p ;; ret (name, (l, p'))) st.

(** ** [MobileNet] *)

Record MobileNet : Type := mkMobileNet {
  in_size : Z * Z;
  num_classes : Z;
  modules : module;
  parameters : store
}.

(** [MobileNet.__init__] *)
Definition MobileNet_init (channels : list (list Z)) (first_stage_stride : bool)
           (in_channels : Z) (in_size : Z * Z) (num_classes : Z) : result MobileNet :=
  m <- build_modules channels first_stage_stride in_channels num_classes ;;
  st <- _init_params (fresh_store m) ;;
  ret (mkMobileNet in_size num_classes m st).

Definition features (net : MobileNet) : list (string * module) :=
  match get_module "features" (children (modules net)) with
  | Some f => children f
  | None => []
  end.

(** Parameter state of the module with a given path. *)
Fixpoint lookup (name : string) (st : store) : option (layer * params) :=
  match st with
  | [] => None
  | (n, lp) :: st' => if String.eqb n name then Some lp else lookup name st'
  end.

(** ** Floats: IEEE-754 binary64 *)

Definition prec : Z := 53.
Definition emax : Z := 1024.

Definition float : Type := spec_float.

(** The float literal [1.0]. *)
Definition float_one : float := S754_finite false 4503599627370496 (-52).

(** Conversion of an [int] operand to [float] in mixed arithmetic. *)
Definition float_of_int (n : Z) : result float :=
  match binary_normalize prec emax n 0 false with
  | S754_infinity _ | S754_nan => raise OverflowError
  | f => ret f
  end.

(** [int(f)]: truncation toward zero; infinities and NaN raise. *)
Definition int_of_float (f : float) : result Z :=
  match f with
  | S754_zero _ => ret 0
  | S754_infinity _ => raise OverflowError
  | S754_nan => raise (ValueError "cannot convert float NaN to integer")
  | S754_finite s m e => ret (cond_Zopp s (Z.shiftl (Zpos m) e))
  end.

(** [a != b] on floats. *)
Definition float_ne (a b : float) : bool := negb (SFeqb a b).

(** [int(cij * width_scale)] *)
Definition scale_channel (width_scale : float) (cij : Z) : result Z :=
  f <- float_of_int cij ;;
  int_of_float (SFmul prec emax f width_scale).

(** ** [get_mobilenet] and the named variants *)

Record kwargs : Type := mkKwargs {
  kw_in_channels : Z;
  kw_in_size : Z * Z;
  kw_num_classes : Z
}.

Definition default_kwargs : kwargs := mkKwargs 3 (224, 224) 1000.

Definition default_root : string := "~/.torch/models".

(** Calls that leave [get_mobilenet], in the order they are made. *)
Inductive event : Type :=
| CallMobileNet (channels : list (list Z)) (first_stage_stride : bool)
| CallDownloadModel (model_name root : string).

(** The external loader [model_store.download_model]: it rewrites the
    parameter tensors of [net] or raises. *)
Definition loader : Type := store -> string -> string -> result store.

Definition version_table (version : string) : result (list (list Z) * bool) :=
  if String.eqb version "orig" then
    ret ([[32]; [64]; [128; 128]; [256; 256];
          [512; 512; 512; 512; 512; 512]; [1024; 1024]], false)
  else if String.eqb version "fd" then
    ret ([[32]; [64]; [128; 128]; [256; 256];
          [512; 512; 512; 512; 512; 1024]], true)
  else
    raise (ValueError ("Unsupported MobileNet version " ++ version)).

Definition scale_channels (width_scale : float) (channels : list (list Z))
  : result (list (list Z)) :=
  if float_ne width_scale float_one then
    mapM (mapM (scale_channel width_scale)) channels
  else ret channels.

Definition model_name_error : exn :=
  ValueError "Parameter `model_name` should be properly initialized for loading pretrained model.".

(** [(model_name is None) or (not model_name)] *)
Definition model_name_missing (model_name : option string) : bool :=
  match model_name with
  | None => true
  | Some EmptyString => true
  | Some _ => false
  end.

(** [get_mobilenet]: the result together with the calls made on the way. *)
Definition get_mobilenet (download_model : loader)
           (version : string) (width_scale : float) (model_name : option string)
           (pretrained : bool) (root : string) (kw : kwargs)
  : list event * result MobileNet :=
  match version_table version with
  | inl e => ([], inl e)
  | inr (channels, first_stage_stride) =>
      match scale_channels width_scale channels with
      | inl e => ([], inl e)
      | inr channels =>
          let ev := [CallMobileNet channels first_stage_stride] in
          match MobileNet_init channels first_stage_stride
                  (kw_in_channels kw) (kw_in_size kw) (kw_num_classes kw) with
          | inl e => (ev, inl e)
          | inr net =>
              if pretrained then
                if model_name_missing model_name then (ev, inl model_name_error)
                else
                  let name := match model_name with Some n => n | None => "" end in
                  ((ev ++ [CallDownloadModel name root])%list,
                   st <- download_model (parameters net) name root ;;
                   ret (mkMobileNet (in_size net) (num_classes net) (modules net) st))
              else (ev, inr net)
          end
      end
  end.

(** The float literals [0.0], [0.75], [0.5] and [0.25]. *)
Definition float_zero : float := S754_zero false.
Definition float_0_75 : float := S754_finite false 6755399441055744 (-53).
Definition float_0_5 : float := S754_finite false 4503599627370496 (-53).
Definition float_0_25 : float := S754_finite false 4503599627370496 (-54).

(** The named variants; each is called with [**kwargs], which carries
    [pretrained], [root] and the constructor arguments.  The keyword
    [model_name] is fixed by the variant and cannot be passed again. *)
Definition model_fn : Type :=
  loader -> bool -> string -> kwargs -> list event * result MobileNet.

Definition mobilenet_w1 : model_fn :=
  fun download_model pretrained root kw =>
    get_mobilenet download_model "orig" float_one (Some "mobilenet_w1")
                  pretrained root kw.

Definition mobilenet_w3d4 : model_fn :=
  fun download_model pretrained root kw =>
    get_mobilenet download_model "orig" float_0_75 (Some "mobilenet_w3d4")
                  pretrained root kw.

Definition mobilenet_wd2 : model_fn :=
  fun download_model pretrained root kw =>
    get_mobilenet download_model "orig" float_0_5 (Some "mobilenet_wd2")
                  pretrained root kw.

Definition mobilenet_wd4 : model_fn :=
  fun download_model pretrained root kw =>
    get_mobilenet download_model "orig" float_0_25 (Some "mobilenet_wd4")
                  pretrained root kw.

Definition fdmobilenet_w1 : model_fn :=
  fun download_model pretrained root kw =>
    get_mobilenet download_model "fd" float_one (Some "fdmobilenet_w1")
                  pretrained root kw.

Definition fdmobilenet_w3d4 : model_fn :=
  fun download_model pretrained root kw =>
    get_mobilenet download_model "fd" float_0_75 (Some "fdmobilenet_w3d4")
                  pretrained root kw.

Definition fdmobilenet_wd2 : model_fn :=
  fun download_model pretrained root kw =>
    get_mobilenet download_model "fd" float_0_5 (Some "fdmobilenet_wd2")
                  pretrained root kw.

Definition fdmobilenet_wd4 : model_fn :=
  fun download_model pretrained root kw =>
    get_mobilenet download_model "fd" float_0_25 (Some "fdmobilenet_wd4")
                  pretrained root kw.

(** The list [models] of [_test]: the eight named variants. *)
Definition models : list model_fn :=
  [ mobilenet_w1; mobilenet_w3d4; mobilenet_wd2; mobilenet_wd4;
    fdmobilenet_w1; fdmobilenet_w3d4; fdmobilenet_wd2; fdmobilenet_wd4 ].

(** ** Forward order of the base network

    The leaf computations of a module in the order its [forward] runs
    them: a [Sequential] runs its children in order, [DwsConvBlock.forward]
    runs [dw_conv] then [pw_conv], anything else is one step;
    [MobileNet.forward] runs [features] then [output] (the reshaping in
    between is not a layer). *)
Fixpoint forward_order (m : module) : list module :=
  match m with
  | Module Sequential cs =>
      (fix go (cs : list (string * module)) : list module :=
         match cs with
         | [] => []
         | (_, c) :: cs' => (forward_order c ++ go cs')%list
         end) cs
  | Module DwsConvBlockL cs =>
      match get_module "dw_conv" cs, get_module "pw_conv" cs with
      | Some dw, Some pw => [dw; pw]
      | _, _ => []
      end
  | _ => [m]
  end.

Definition MobileNet_forward_order (model : module) : list module :=
  match get_module "features" (children model), get_module "output" (children model) with
  | Some f, Some o => (forward_order f ++ [o])%list
  | _, _ => []
  end.

(** ** Flattening the module tree *)

Definition is_Sequential (m : module) : bool :=
  match layer_of m with Sequential => true | _ => false end.

Definition is_DwsConvBlock (m : module) : bool :=
  match layer_of m with DwsConvBlockL => true | _ => false end.

(** [remove_sequential(network, all_layers)]: the list is an accumulator
    that every leaf is appended to. *)
Fixpoint remove_sequential (network : module) (all_layers : list module) : list module :=
  match network with
  | Module _ cs =>
      (fix loop (cs : list (string * module)) (all_layers : list module) : list module :=
         match cs with
         | [] => all_layers
         | (_, layer) :: cs' =>
             loop cs'
                  (if is_Sequential layer
                   then remove_sequential layer all_layers
                   else (all_layers ++ [layer])%list)
         end) cs all_layers
  end.

(** [remove_DwsConvBlock(cur_layers)] *)
Definition remove_DwsConvBlock (cur_layers : list module) : list module :=
  fold_left
    (fun all_layers layer =>
       if is_DwsConvBlock layer
       then fold_left (fun acc ch => (acc ++ [snd ch])%list) (children layer) all_layers
       else (all_layers ++ [layer])%list)
    cur_layers [].

(** ** [MyMobilenetV1] *)

Record MyMobilenetV1 : Type := mkMyMobilenetV1 {
  lat_features : list module;
  end_features : list module;
  output : module
}.

(** [model.features.final_pool = pool] *)
Definition set_final_pool (pool : module) (model : module) : result module :=
  match model with
  | Module l cs =>
      match get_module "features" cs with
      | None => raise AttributeError
      | Some (Module lf fs) =>
          ret (Module l (add_module "features"
                                    (Module lf (add_module "final_pool" pool fs)) cs))
      end
  end.

(** The body of the partitioning loop. *)
Definition partition_step (latent_layer_num : Z)
           (st : list module * list module) (il : nat * module)
  : list module * list module :=
  let '(lat_list, end_list) := st in
  let '(i, layer) := il in
  if Z.of_nat i <=? latent_layer_num
  then ((lat_list ++ [layer])%list, end_list)
  else (lat_list, (end_list ++ [layer])%list).

(** The flattened leaf-layer list computed by the constructor. *)
Definition flatten_layers (model : module) : list module :=
  remove_DwsConvBlock (remove_sequential model []).

(** The first half of [MyMobilenetV1.__init__]: the base model with its
    pooling layer replaced, and [all_layers] as it stands before the
    partitioning loop. *)
Definition MyMobilenetV1_base (download_model : loader) (pretrained : bool)
  : result module :=
  model <- snd (mobilenet_w1 download_model pretrained
                             default_root default_kwargs) ;;
  set_final_pool (Module (AvgPool2d 4 4) []) (modules model).

Definition MyMobilenetV1_all_layers (download_model : loader) (pretrained : bool)
  : result (list module) :=
  model <- MyMobilenetV1_base download_model pretrained ;;
  ret (flatten_layers model).

(** [MyMobilenetV1.__init__] *)
Definition MyMobilenetV1_init (download_model : loader)
           (pretrained : bool) (latent_layer_num : Z) : result MyMobilenetV1 :=
  all_layers <- MyMobilenetV1_all_layers download_model pretrained ;;
  let '(lat_list, end_list) :=
    fold_left (partition_step latent_layer_num)
              (enumerate (removelast all_layers)) ([], []) in
  ret (mkMyMobilenetV1 lat_list end_list (Module (Linear 1024 50 false) [])).

(** ** Forward passes

    A tensor is the list of its slices along the batch dimension; what a
    layer computes on a batch is left abstract. *)
Section Forward.
Variable sample : Type.
Definition batch : Type := list sample.

(** What one leaf layer computes. *)
Variable apply_layer : module -> batch -> batch.
(** [x.view(x.size(0), -1)] *)
Variable view_flat : batch -> batch.

(** [nn.Sequential.forward] over a list of layers. *)
Definition sequential_forward (layers : list module) (x : batch) : batch :=
  fold_left (fun x layer => apply_layer layer x) layers x.

(** [torch.cat((a, b), 0)] *)
Definition cat0 (a b : batch) : batch := (a ++ b)%list.

(** [MyMobilenetV1.forward]; the second component is [orig_acts] when
    [return_lat_acts] is set. *)
Definition MyMobilenetV1_forward (self : MyMobilenetV1) (x : batch)
           (latent_input : option batch) (return_lat_acts : bool)
  : batch * option batch :=
  let orig_acts := sequential_forward (lat_features self) x in
  let lat_acts :=
    match latent_input with
    | Some latent_input => cat0 orig_acts latent_input
    | None => orig_acts
    end in
  let x := sequential_forward (end_features self) lat_acts in
  let x := view_flat x in
  let logits := apply_layer (output self) x in
  if return_lat_acts then (logits, Some orig_acts) else (logits, None).

End Forward.

Definition is_AvgPool2d (m : module) : bool :=
  match layer_of m with AvgPool2d _ _ => true | _ => false end.

(** The loader used where a concrete one is needed: it leaves the
    parameters as they are. *)
Definition keep_parameters : loader := fun st _ _ => ret st.

(** The module tree of [mobilenet_w1], whatever the loader does. *)
Definition mobilenet_w1_modules : module :=
  Eval vm_compute in
    match build_modules
            [[32]; [64]; [128; 128]; [256; 256];
             [512; 512; 512; 512; 512; 512]; [1024; 1024]] false 3 1000 with
    | inr m => m
    | inl _ => Module MobileNetL []
    end.

(** The same tree once [MyMobilenetV1] has replaced its pooling layer. *)
Definition MyMobilenetV1_model : module :=
  Eval vm_compute in
    match set_final_pool (Module (AvgPool2d 4 4) []) mobilenet_w1_modules with
    | inr m => m
    | inl _ => Module MobileNetL []
    end.

(** ** Closed forms of the two construction loops

    What the inner and the outer loop of [MobileNet.__init__] leave in
    [stage] and in [self.features]; the loops themselves are [unit_step]
    and [stage_step]. *)
Fixpoint units_from (i : nat) (first_stage_stride : bool) (in_channels : Z)
         (j : nat) (channels_per_stage : list Z) : list (string * module) :=
  match channels_per_stage with
  | [] => []
  | out_channels :: rest =>
      ("unit" ++ format_nat (j + 1),
       DwsConvBlock_tree in_channels out_channels (unit_stride i j first_stage_stride))
      :: units_from i first_stage_stride out_channels (S j) rest
  end.

Fixpoint stages_from (first_stage_stride : bool) (in_channels : Z)
         (i : nat) (stages : list (list Z)) : list (string * module) :=
  match stages with
  | [] => []
  | channels_per_stage :: rest =>
      ("stage" ++ format_nat (i + 1),
       Module Sequential (units_from i first_stage_stride in_channels 0 channels_per_stage))
      :: stages_from first_stage_stride (last channels_per_stage in_channels) (S i) rest
  end.

(** The value of [in_channels] after the outer loop. *)
Fixpoint final_channels (in_channels : Z) (stages : list (list Z)) : Z :=
  match stages with
  | [] => in_channels
  | channels_per_stage :: rest =>
      final_channels (last channels_per_stage in_channels) rest
  end.

(** The module tree of a network built from a table whose first stage is
    not empty. *)
Definition MobileNet_tree (c0 : Z) (stages : list (list Z)) (fss : bool)
           (in_channels num_classes : Z) : module :=
  Module MobileNetL
    [ ("features",
       Module Sequential
         (("init_block", conv3x3_block_tree in_channels c0 2)
          :: stages_from fss c0 0 stages
          ++ [("final_pool", Module (AvgPool2d 7 1) [])])%list);
      ("output", Module (Linear (final_channels c0 stages) num_classes true) []) ].

Definition is_digit (c : ascii) : bool :=
  match c with
  | "0" | "1" | "2" | "3" | "4" | "5" | "6" | "7" | "8" | "9" => true
  | _ => false
  end%char.

Fixpoint all_digits (s : string) : bool :=
  match s with
  | EmptyString => true
  | String c s' => is_digit c && all_digits s'
  end.

(** The stride a unit was built with: the stride of its depthwise
    convolution. *)
Definition dws_stride (unit : module) : option Z :=
  match get_module "dw_conv" (children unit) with
  | Some dw =>
      match get_module "conv" (children dw) with
      | Some (Module (Conv2d _ _ _ stride _) _) => Some stride
      | _ => None
      end
  | None => None
  end.

(** ** What the initialisation pass leaves in each module

    The outcome of [_init_params] for a module of a constructed network,
    by the kind of the module and its path. *)
Definition bn_params : params := mkParams (Some (Constant 1)) (Some (Constant 0)).

Definition entry_spec (name : string) (l : layer) (p : params) : Prop :=
  match l with
  | BatchNorm2d _ => contains "bn" name = true /\ p = bn_params
  | Conv2d _ _ _ _ _ =>
      contains "bn" name = false /\
      ((name = "features.init_block.conv" /\ p = fresh_params l) \/
       (contains "dw_conv.conv" name = true /\
        p = mkParams (Some (KaimingNormal fan_in)) None) \/
       (contains "dw_conv.conv" name = false /\ contains "pw_conv.conv" name = true /\
        p = mkParams (Some (KaimingNormal fan_out)) None))
  | Linear _ _ _ =>
      contains "bn" name = false /\ name = "output" /\
      p = mkParams (Some (KaimingNormal fan_out)) (Some (Constant 0))
  | _ => contains "bn" name = false /\ p = mkParams None None
  end.

Definition entry_ok (e : string * layer) : Prop :=
  exists p, init_module (fst e) (fresh_params (snd e)) = inr p /\
            entry_spec (fst e) (snd e) p.

(** [named_modules] of the children of a module with path [prefix]. *)
Definition named_children (prefix : string) (cs : list (string * module))
  : list (string * layer) :=
  flat_map (fun nc => named_modules (submodule_name prefix (fst nc)) (snd nc)) cs.

(** The store after a pass in which no rule raised. *)
Definition initialised (e : string * layer) : string * (layer * params) :=
  (fst e,
   (snd e,
    match init_module (fst e) (fresh_params (snd e)) with
    | inr p => p
    | inl _ => fresh_params (snd e)
    end)).

(** ** The value of a float

    The rational a finite float stands for, and the bound below which
    every channel count of the base tables can be scaled without leaving
    the finite range. *)
Definition pow2Q (e : Z) : Q := Qpower 2 e.

Definition SF2Q (f : float) : Q :=
  match f with
  | S754_finite s m e => inject_Z (cond_Zopp s (Zpos m)) * pow2Q e
  | _ => 0
  end.

(** The float literal [-0.3]. *)
Definition float_minus_0_3 : float := S754_finite true 5404319552844595 (-54).

(** The float [2.0 ** 1014]. *)
Definition float_2_1014 : float := S754_finite false 4503599627370496 962.

(** A shift record with no round and no sticky bit. *)
Definition exact_record (m : Z) : shr_record := Build_shr_record m false false.

(** A variant that, called with [pretrained] set, goes past the model-name
    check: the name it passes on is not missing; an exception of the
    constructor, which is never the model-name error, is the outcome of
    the call; and once the network is constructed the loader is called
    under that name. *)
Definition passes_the_name_check (dl : loader) (root : string) (kw : kwargs)
           (f : model_fn) : Prop :=
  exists name channels fss,
    name <> ""%string /\
    model_name_missing (Some name) = false /\
    match MobileNet_init channels fss
                         (kw_in_channels kw) (kw_in_size kw) (kw_num_classes kw) with
    | inl e =>
        e <> model_name_error /\
        f dl true root kw = ([CallMobileNet channels fss], inl e)
    | inr net =>
        f dl true root kw
        = ([CallMobileNet channels fss; CallDownloadModel name root],
           st <- dl (parameters net) name root ;;
           ret (mkMobileNet (in_size net) (num_classes net) (modules net) st))
    end.

(** ** [_calc_width]

    The sizes of the parameter tensors of a layer are those its
    constructor allocates: a convolution weight is
    [out_channels x in_channels // groups x k x k], a normalization layer
    has a weight and a bias of [num_features] entries, a linear layer a
    weight of [out_features x in_features] and a bias of [out_features]
    entries.  Every parameter is trainable. *)
Definition weight_size (l : layer) : list Z :=
  match l with
  | Conv2d i o k _ g => [o; i / g; k; k]
  | BatchNorm2d c => [c]
  | Linear i o _ => [o; i]
  | _ => []
  end.

Definition bias_size (l : layer) : list Z :=
  match l with
  | BatchNorm2d c => [c]
  | Linear _ o _ => [o]
  | _ => []
  end.

(** [np.prod(size)] *)
Definition numel (size : list Z) : Z := fold_left Z.mul size 1.

(** The sizes of [net.parameters()]: module by module, the weight and then
    the bias, when the module has them. *)
Definition module_parameter_sizes (e : string * (layer * params)) : list (list Z) :=
  let '(_, (l, p)) := e in
  ((match weight p with Some _ => [weight_size l] | None => [] end)
   ++ (match bias p with Some _ => [bias_size l] | None => [] end))%list.

Definition parameter_sizes (st : store) : list (list Z) :=
  flat_map module_parameter_sizes st.

(** [_calc_width(net)] *)
Definition _calc_width (net : MobileNet) : Z :=
  fold_left (fun weight_count size => weight_count + numel size)
            (parameter_sizes (parameters net)) 0.

(** The counts [_test] asserts, in the order of [models]. *)
Definition expected_weight_counts : list Z :=
  [4231976; 2585560; 1331592; 470072; 2901288; 1833304; 993928; 383160].

(** ** [mobilenet_v1_core50] *)

(** [model.output = out] *)
Definition set_output (out : module) (model : module) : module :=
  match model with
  | Module l cs => Module l (add_module "output" out cs)
  end.

(** The store once the module at [path] is replaced by a new leaf layer:
    the new layer comes with its own fresh parameters. *)
Definition replace_module (path : string) (l : layer) (st : store) : store :=
  map (fun e => if String.eqb (fst e) path then (path, (l, fresh_params l)) else e) st.

(** [mobilenet_v1_core50()]; the attributes [in_size] and [num_classes] of
    the model are not assigned again. *)
Definition mobilenet_v1_core50 (download_model : loader) : result MobileNet :=
  model <- snd (mobilenet_w1 download_model true default_root default_kwargs) ;;
  m <- set_final_pool (Module (AvgPool2d 4 4) []) (modules model) ;;
  let m := set_output (Module (Linear 1024 50 false) []) m in
  ret (mkMobileNet (in_size model) (num_classes model) m
         (replace_module "output" (Linear 1024 50 false)
            (replace_module "features.final_pool" (AvgPool2d 4 4)
               (parameters model)))).

(** ** Channel bookkeeping along the forward order of [features]

    The number of channels a layer of [features] hands on when it is fed
    [c] channels, or [None] when it cannot take them: a convolution block
    needs [c] input channels, a positive number of groups dividing both
    channel counts, and a normalization layer as wide as its output; a
    pooling layer keeps the channels.  Spatial sizes are not tracked, so
    the classifier, which is fed channels x height x width features after
    the reshaping, is not part of the bookkeeping. *)
Definition channels_through (c : Z) (m : module) : option Z :=
  match m with
  | Module ConvBlock cs =>
      match get_module "conv" cs, get_module "bn" cs with
      | Some (Module (Conv2d i o _ _ g) _), Some (Module (BatchNorm2d n) _) =>
          if (i =? c) && (0 <? g) && (i mod g =? 0) && (o mod g =? 0) && (n =? o)
          then Some o else None
      | _, _ => None
      end
  | Module (AvgPool2d _ _) _ => Some c
  | _ => None
  end.

Fixpoint channels_along (c : Z) (layers : list module) : option Z :=
  match layers with
  | [] => Some c
  | m :: rest =>
      match channels_through c m with
      | Some c' => channels_along c' rest
      | None => None
      end
  end.

(** The leaves [remove_sequential] collects from a list of children, and
    what [remove_DwsConvBlock] puts in the place of one layer. *)
Definition leaf_layers (cs : list (string * module)) : list module :=
  flat_map (fun nc => if is_Sequential (snd nc)
                      then remove_sequential (snd nc) []
                      else [snd nc]) cs.

Definition expand_DwsConvBlock (layer : module) : list module :=
  if is_DwsConvBlock layer then map snd (children layer) else [layer].

(** The number of units of a channel table, and the parameter count of a
    network in terms of its table. *)
Definition unit_count (stages : list (list Z)) : nat :=
  List.length (List.concat stages).

Definition unit_weight_count (a b : Z) : Z := 9 * a + 2 * a + a * b + 2 * b.

Fixpoint units_weight_count (in_channels : Z) (channels_per_stage : list Z) : Z :=
  match channels_per_stage with
  | [] => 0
  | out_channels :: rest =>
      unit_weight_count in_channels out_channels + units_weight_count out_channels rest
  end.

Fixpoint stages_weight_count (in_channels : Z) (stages : list (list Z)) : Z :=
  match stages with
  | [] => 0
  | channels_per_stage :: rest =>
      units_weight_count in_channels channels_per_stage
      + stages_weight_count (last channels_per_stage in_channels) rest
  end.

Definition table_weight_count (in_channels c0 : Z) (stages : list (list Z))
           (num_classes : Z) : Z :=
  9 * in_channels * c0 + 2 * c0
  + stages_weight_count c0 stages
  + (final_channels c0 stages * num_classes + num_classes).

(** Whether a module has each of the two attributes. *)
Definition has_attrs (p : params) : bool * bool :=
  (match weight p with Some _ => true | None => false end,
   match bias p with Some _ => true | None => false end).

(** The number of entries of the parameters a layer is constructed with. *)
Definition layer_numel (l : layer) : Z :=
  fold_right (fun size acc => numel size + acc) 0
             (module_parameter_sizes (""%string, (l, fresh_params l))).

Definition modules_numel (nm : list (string * layer)) : Z :=
  fold_right (fun e acc => layer_numel (snd e) + acc) 0 nm.

(** * Properties *)

(** ** The error monad *)

Lemma bind_inr {A B : Type} (m : result A) (k : A -> result B) (b : B) :
  bind m k = inr b -> exists a, m = inr a /\ k a = inr b.
Proof.
  destruct m as [e | a]; simpl; intros H; [discriminate | eauto].
Qed.

(** ** The base network of [MyMobilenetV1] *)

Lemma mobilenet_w1_has_modules dl pretrained root kw net :
  kw = default_kwargs ->
  snd (mobilenet_w1 dl pretrained root kw) = inr net ->
  modules net = mobilenet_w1_modules.
Proof.
  intros -> H. unfold mobilenet_w1, get_mobilenet in H.
  change (version_table "orig") with
    (@inr exn _ ([[32]; [64]; [128; 128]; [256; 256];
                  [512; 512; 512; 512; 512; 512]; [1024; 1024]], false)) in H.
  cbv beta iota in H.
  change (scale_channels float_one _) with
    (@inr exn _ [[32]; [64]; [128; 128]; [256; 256];
                 [512; 512; 512; 512; 512; 512]; [1024; 1024]]) in H.
  cbv beta iota in H.
  destruct (MobileNet_init _ _ _ _ _) as [e | net0] eqn:E; [discriminate H|].
  assert (Hm : modules net0 = mobilenet_w1_modules).
  { unfold MobileNet_init in E.
    apply bind_inr in E as (m & Em & E).
    apply bind_inr in E as (st & _ & E).
    injection E as <-. cbn [modules].
    vm_compute in Em. injection Em as <-. reflexivity. }
  destruct pretrained; cbn in H.
  - apply bind_inr in H as (st & _ & H). injection H as <-. exact Hm.
  - injection H as <-. exact Hm.
Qed.

Lemma MyMobilenetV1_base_model dl pretrained model :
  MyMobilenetV1_base dl pretrained = inr model -> model = MyMobilenetV1_model.
Proof.
  unfold MyMobilenetV1_base. intros H.
  apply bind_inr in H as (net & Hnet & H).
  apply mobilenet_w1_has_modules in Hnet; [|reflexivity].
  rewrite Hnet in H. vm_compute in H. injection H as <-. reflexivity.
Qed.

(** ** The partitioning loop *)

Lemma partition_loop (k : Z) (l : list module) :
  forall (s : nat) (lat_list end_list : list module),
    fold_left (partition_step k) (combine (seq s (List.length l)) l)
              (lat_list, end_list)
    = ((lat_list ++ firstn (Z.to_nat (k + 1) - s) l)%list,
       (end_list ++ skipn (Z.to_nat (k + 1) - s) l)%list).
Proof.
  induction l as [|x l IH]; intros s lat_list end_list.
  - cbn. rewrite firstn_nil, skipn_nil, !app_nil_r. reflexivity.
  - cbn [List.length seq combine fold_left partition_step].
    destruct (Z.leb_spec (Z.of_nat s) k) as [Hle | Hgt].
    + rewrite IH.
      replace (Z.to_nat (k + 1) - s)%nat with (S (Z.to_nat (k + 1) - S s)) by lia.
      cbn [firstn skipn]. rewrite <- app_assoc. reflexivity.
    + rewrite IH.
      replace (Z.to_nat (k + 1) - s)%nat with 0%nat by lia.
      replace (Z.to_nat (k + 1) - S s)%nat with 0%nat by lia.
      cbn [firstn skipn]. rewrite <- app_assoc, app_nil_r. reflexivity.
Qed.

Lemma MyMobilenetV1_init_partition dl pretrained k self :
  MyMobilenetV1_init dl pretrained k = inr self ->
  exists all_layers,
    MyMobilenetV1_all_layers dl pretrained = inr all_layers /\
    lat_features self = firstn (Z.to_nat (k + 1)) (removelast all_layers) /\
    end_features self = skipn (Z.to_nat (k + 1)) (removelast all_layers).
Proof.
  unfold MyMobilenetV1_init. intros H.
  apply bind_inr in H as (all_layers & Hall & H).
  exists all_layers. split; [exact Hall|].
  unfold enumerate in H. rewrite partition_loop in H.
  rewrite Nat.sub_0_r in H. cbn in H. injection H as <-. cbn. auto.
Qed.

(** ** [MyMobilenetV1]: what is dropped and what is partitioned *)

(** C1, as stated, fails: on the base network built without pretrained
    weights, the last entry of the flattened list is the linear classifier
    [output] of the base network, not a pooling layer. *)
Lemma C1_last_entry_is_classifier :
  exists all_layers,
    MyMobilenetV1_all_layers keep_parameters false = inr all_layers /\
    last all_layers (Module ReLU []) = Module (Linear 1024 1000 true) [] /\
    is_AvgPool2d (last all_layers (Module ReLU [])) = false.
Proof.
  eexists. split; [vm_compute; reflexivity|]. split; reflexivity.
Qed.

(** C1 (amended): the flattened list is the forward order of the base
    network, [features] leaf by leaf followed by the classifier [output];
    the entry left out of the partitioning is that classifier; the
    replaced pooling layer stays in the partition as its last entry; and
    for every split index the latent partition followed by the end
    partition is the forward order of [features]. *)
Theorem C1_partition_is_features_forward_order dl pretrained k self :
  MyMobilenetV1_init dl pretrained k = inr self ->
  exists model f o,
    MyMobilenetV1_base dl pretrained = inr model /\
    get_module "features" (children model) = Some f /\
    get_module "output" (children model) = Some o /\
    flatten_layers model = MobileNet_forward_order model /\
    flatten_layers model = (forward_order f ++ [o])%list /\
    o = Module (Linear 1024 1000 true) [] /\
    last (forward_order f) o = Module (AvgPool2d 4 4) [] /\
    (lat_features self ++ end_features self)%list = forward_order f.
Proof.
  intros H.
  apply MyMobilenetV1_init_partition in H as (all_layers & Hall & Hlat & Hend).
  unfold MyMobilenetV1_all_layers in Hall.
  apply bind_inr in Hall as (model & Hbase & Hall).
  injection Hall as <-.
  pose proof (MyMobilenetV1_base_model _ _ _ Hbase) as ->.
  eexists _, _, _. split; [exact Hbase|].
  split; [reflexivity|]. split; [reflexivity|].
  split; [vm_compute; reflexivity|].
  split; [vm_compute; reflexivity|].
  split; [reflexivity|].
  split; [vm_compute; reflexivity|].
  rewrite Hlat, Hend, firstn_skipn. vm_compute. reflexivity.
Qed.

Lemma C1_partition_is_features_forward_order_witness :
  exists self,
    MyMobilenetV1_init keep_parameters false 20 = inr self /\
    exists model f o,
      MyMobilenetV1_base keep_parameters false = inr model /\
      get_module "features" (children model) = Some f /\
      get_module "output" (children model) = Some o /\
      flatten_layers model = MobileNet_forward_order model /\
      flatten_layers model = (forward_order f ++ [o])%list /\
      o = Module (Linear 1024 1000 true) [] /\
      last (forward_order f) o = Module (AvgPool2d 4 4) [] /\
      (lat_features self ++ end_features self)%list = forward_order f.
Proof.
  eexists. split; [vm_compute; reflexivity|].
  apply (C1_partition_is_features_forward_order keep_parameters false 20).
  vm_compute; reflexivity.
Defined.

(** C4, as stated, fails: with split index 28 the latent partition holds
    the 28 partitioned layers, not 29, and the end partition is empty. *)
Lemma C4_split_past_the_end :
  exists self all_layers,
    MyMobilenetV1_init keep_parameters false 28 = inr self /\
    MyMobilenetV1_all_layers keep_parameters false = inr all_layers /\
    List.length all_layers = 29%nat /\
    List.length (lat_features self) = 28%nat /\
    Z.of_nat (List.length (lat_features self)) <> 28 + 1 /\
    Z.of_nat (List.length (end_features self))
    <> (Z.of_nat (List.length all_layers) - 1) - (28 + 1).
Proof.
  eexists _, _. split; [vm_compute; reflexivity|].
  split; [vm_compute; reflexivity|].
  repeat split; vm_compute; congruence.
Qed.

(** C4 (amended): the partitioned list is the flattened list without its
    last entry; the latent partition is its first [min (max (k+1) 0)
    (total-1)] entries and the end partition is the rest, both in the
    original order.  So for [-1 <= k <= total-2] the latent partition has
    length [k+1] and the end partition has length [(total-1) - (k+1)]. *)
Theorem C4_partition_lengths dl pretrained k self :
  MyMobilenetV1_init dl pretrained k = inr self ->
  exists all_layers,
    MyMobilenetV1_all_layers dl pretrained = inr all_layers /\
    let total := List.length all_layers in
    let n := Nat.min (Z.to_nat (k + 1)) (total - 1) in
    lat_features self = firstn n (removelast all_layers) /\
    end_features self = skipn n (removelast all_layers) /\
    List.length (lat_features self) = n /\
    List.length (end_features self) = ((total - 1) - n)%nat /\
    (-1 <= k <= Z.of_nat total - 2 ->
     Z.of_nat (List.length (lat_features self)) = k + 1 /\
     Z.of_nat (List.length (end_features self)) = (Z.of_nat total - 1) - (k + 1)).
Proof.
  intros H.
  apply MyMobilenetV1_init_partition in H as (all_layers & Hall & Hlat & Hend).
  exists all_layers. split; [exact Hall|]. cbv zeta.
  assert (Hlen : List.length (removelast all_layers) = (List.length all_layers - 1)%nat).
  { destruct all_layers as [|a l] using rev_ind; [reflexivity|].
    rewrite removelast_last, length_app. cbn. lia. }
  assert (Hf : forall n, firstn (Nat.min n (List.length all_layers - 1)) (removelast all_layers)
                         = firstn n (removelast all_layers)).
  { intros n. destruct (Nat.le_gt_cases n (List.length all_layers - 1)).
    - rewrite Nat.min_l by lia. reflexivity.
    - rewrite Nat.min_r by lia.
      rewrite !firstn_all2 by lia. reflexivity. }
  assert (Hs : forall n, skipn (Nat.min n (List.length all_layers - 1)) (removelast all_layers)
                         = skipn n (removelast all_layers)).
  { intros n. destruct (Nat.le_gt_cases n (List.length all_layers - 1)).
    - rewrite Nat.min_l by lia. reflexivity.
    - rewrite Nat.min_r by lia.
      rewrite !skipn_all2 by lia. reflexivity. }
  rewrite Hf, Hs.
  assert (Hl1 : List.length (lat_features self)
                = Nat.min (Z.to_nat (k + 1)) (List.length all_layers - 1)).
  { rewrite Hlat, length_firstn, Hlen. reflexivity. }
  assert (Hl2 : List.length (end_features self)
                = (List.length all_layers - 1
                   - Nat.min (Z.to_nat (k + 1)) (List.length all_layers - 1))%nat).
  { rewrite Hend, length_skipn, Hlen. lia. }
  repeat split; try assumption; lia.
Qed.

Lemma C4_partition_lengths_witness :
  exists self,
    MyMobilenetV1_init keep_parameters false 20 = inr self /\
    List.length (lat_features self) = 21%nat /\
    List.length (end_features self) = 7%nat.
Proof.
  destruct (MyMobilenetV1_init keep_parameters false 20) as [e | self] eqn:E;
    [vm_compute in E; discriminate E|].
  exists self. split; [reflexivity|].
  destruct (C4_partition_lengths keep_parameters false 20 self E)
    as (all_layers & Hall & _ & _ & Hl1 & Hl2 & _).
  vm_compute in Hall. injection Hall as <-.
  split; [exact Hl1 | exact Hl2].
Defined.

(** ** Strings and names *)

Lemma string_app_assoc (a b c : string) : ((a ++ b) ++ c = a ++ (b ++ c))%string.
Proof.
  induction a as [|x a IH]; cbn; [reflexivity | now rewrite IH].
Qed.

Lemma string_app_inv_head (a b c : string) : (a ++ b = a ++ c)%string -> b = c.
Proof.
  induction a as [|x a IH]; cbn; intros H; [exact H|].
  injection H as H. auto.
Qed.

Lemma format_nat_inj (a b : nat) : format_nat a = format_nat b -> a = b.
Proof.
  unfold format_nat. intros H.
  assert (Hu : Some (Nat.to_uint a) = Some (Nat.to_uint b)).
  { rewrite <- !NilEmpty.usu. now rewrite H. }
  injection Hu as Hu.
  rewrite <- (DecimalNat.Unsigned.of_to a), <- (DecimalNat.Unsigned.of_to b).
  now rewrite Hu.
Qed.

Lemma all_digits_string_of_uint (d : Decimal.uint) :
  all_digits (NilEmpty.string_of_uint d) = true.
Proof.
  induction d; cbn; auto.
Qed.

Lemma all_digits_format_nat (n : nat) : all_digits (format_nat n) = true.
Proof. apply all_digits_string_of_uint. Qed.

Lemma is_digit_neq (c a : ascii) :
  is_digit c = false -> is_digit a = true -> Ascii.eqb c a = false.
Proof.
  intros Hc Ha. destruct (Ascii.eqb_spec c a) as [-> | _]; [congruence | reflexivity].
Qed.

(** A pattern that starts with a non-digit cannot start inside a run of
    digits. *)
Lemma contains_skip_digits (c : ascii) (p d r : string) :
  is_digit c = false -> all_digits d = true ->
  contains (String c p) (d ++ r) = contains (String c p) r.
Proof.
  intros Hc. induction d as [|a d IH]; intros Hd; [reflexivity|].
  cbn in Hd. apply andb_prop in Hd as [Ha Hd].
  cbn [append contains starts_with].
  rewrite (is_digit_neq c a Hc Ha). cbn. auto.
Qed.

Lemma contains_only_digits (c : ascii) (p d : string) :
  is_digit c = false -> all_digits d = true -> contains (String c p) d = false.
Proof.
  intros Hc. induction d as [|a d IH]; intros Hd; [reflexivity|].
  cbn in Hd. apply andb_prop in Hd as [Ha Hd].
  cbn [contains starts_with].
  rewrite (is_digit_neq c a Hc Ha). cbn. auto.
Qed.

(** ** [add_module] on a fresh name *)

Lemma add_module_fresh name m cs :
  ~ In name (map fst cs) -> add_module name m cs = (cs ++ [(name, m)])%list.
Proof.
  induction cs as [|[n c] cs IH]; cbn; intros H; [reflexivity|].
  destruct (String.eqb_spec n name) as [-> | _]; [tauto|].
  rewrite IH by tauto. reflexivity.
Qed.


Lemma unit_name_inj (a b : nat) :
  ("unit" ++ format_nat (a + 1) = "unit" ++ format_nat (b + 1))%string -> a = b.
Proof.
  intros H. apply string_app_inv_head, format_nat_inj in H. lia.
Qed.

Lemma stage_name_inj (a b : nat) :
  ("stage" ++ format_nat (a + 1) = "stage" ++ format_nat (b + 1))%string -> a = b.
Proof.
  intros H. apply string_app_inv_head, format_nat_inj in H. lia.
Qed.

(** ** The construction loops *)

Lemma last_cons {A : Type} (l : list A) (x d : A) : last (x :: l) d = last l x.
Proof.
  revert x d. induction l as [|y l IH]; intros x d; [reflexivity|].
  change (last (x :: y :: l) d) with (last (y :: l) d).
  now rewrite !IH.
Qed.


(** *** The layer constructors and the block builders *)

Lemma bind_inl {A B : Type} (m : result A) (k : A -> result B) (e : exn) :
  bind m k = inl e -> m = inl e \/ exists a, m = inr a /\ k a = inl e.
Proof.
  destruct m as [e' | a]; simpl; intros H; [left; congruence | right; eauto].
Qed.

Lemma conv_block_outcome i o k s g :
  conv_block i o k s g = inr (conv_block_tree i o k s g) \/
  exists e, conv_block i o k s g = inl e /\ layer_error e.
Proof.
  unfold conv_block, new_Conv2d, new_BatchNorm2d, layer_error.
  destruct (g <=? 0); [right; eexists; split; [reflexivity | tauto]|].
  destruct (i mod g =? 0); cbn [negb];
    [|right; eexists; split; [reflexivity | tauto]].
  destruct (o mod g =? 0); cbn [negb];
    [|right; eexists; split; [reflexivity | tauto]].
  destruct (o <? 0) eqn:Ho; cbn [orb].
  - right; eexists; split; [reflexivity | tauto].
  - destruct (i / g <? 0); [right; eexists; split; [reflexivity | tauto]|].
    left. reflexivity.
Qed.

Lemma conv_block_succeeds i o k s g :
  0 < g -> i mod g = 0 -> o mod g = 0 -> 0 <= o -> 0 <= i ->
  conv_block i o k s g = inr (conv_block_tree i o k s g).
Proof.
  intros Hg Hi Ho Hpo Hpi.
  unfold conv_block, new_Conv2d, new_BatchNorm2d.
  assert (Hdiv : 0 <= i / g) by (apply Z.div_pos; lia).
  destruct (Z.leb_spec g 0); [lia|].
  rewrite Hi, Ho. cbn [Z.eqb negb].
  destruct (Z.ltb_spec o 0); [lia|].
  destruct (Z.ltb_spec (i / g) 0); [lia|].
  cbn [orb bind ret].
  destruct (Z.ltb_spec o 0); [lia|]. reflexivity.
Qed.

Lemma conv_block_inv i o k s g m :
  conv_block i o k s g = inr m -> m = conv_block_tree i o k s g.
Proof.
  intros H. destruct (conv_block_outcome i o k s g) as [E | (e & E & _)];
    rewrite E in H; congruence.
Qed.

Lemma DwsConvBlock_outcome a b s :
  DwsConvBlock a b s = inr (DwsConvBlock_tree a b s) \/
  exists e, DwsConvBlock a b s = inl e /\ layer_error e.
Proof.
  unfold DwsConvBlock, dwconv3x3_block, conv1x1_block.
  destruct (conv_block_outcome a a 3 s a) as [-> | (e & -> & He)];
    [|right; exists e; split; [reflexivity | exact He]].
  cbn [bind].
  destruct (conv_block_outcome a b 1 1 1) as [-> | (e & -> & He)];
    [|right; exists e; split; [reflexivity | exact He]].
  left. reflexivity.
Qed.

(** A unit is built when its input channel count is positive and its
    output channel count is not negative. *)
Lemma DwsConvBlock_succeeds a b s :
  0 < a -> 0 <= b -> DwsConvBlock a b s = inr (DwsConvBlock_tree a b s).
Proof.
  intros Ha Hb. unfold DwsConvBlock, dwconv3x3_block, conv1x1_block.
  rewrite conv_block_succeeds by (try apply Z_mod_same_full; lia).
  cbn [bind].
  rewrite conv_block_succeeds by (try apply Z.mod_1_r; lia).
  reflexivity.
Qed.

(** *** The two loops *)

Lemma unit_loop i fss chs :
  forall j in_ch acc,
    (forall name, In name (map fst acc) ->
                  exists j', (j' < j)%nat /\ name = ("unit" ++ format_nat (j' + 1))%string) ->
    foldM (unit_step i fss) (combine (seq j (List.length chs)) chs) (in_ch, acc)
    = inr (last chs in_ch, (acc ++ units_from i fss in_ch j chs)%list) \/
    exists e,
      foldM (unit_step i fss) (combine (seq j (List.length chs)) chs) (in_ch, acc) = inl e /\
      layer_error e.
Proof.
  induction chs as [|c chs IH]; intros j in_ch acc Hacc.
  - left. cbn. now rewrite app_nil_r.
  - cbn [List.length seq combine foldM unit_step units_from].
    destruct (DwsConvBlock_outcome in_ch c (unit_stride i j fss)) as [-> | (e & -> & He)];
      [|right; exists e; split; [reflexivity | exact He]].
    cbn [bind ret].
    rewrite add_module_fresh.
    + rewrite last_cons.
      replace (acc ++ _ :: units_from i fss c (S j) chs)%list
        with ((acc ++ [(("unit" ++ format_nat (j + 1))%string,
                        DwsConvBlock_tree in_ch c (unit_stride i j fss))])
              ++ units_from i fss c (S j) chs)%list
        by (rewrite <- app_assoc; reflexivity).
      apply IH.
      intros name Hin. rewrite map_app, in_app_iff in Hin.
      destruct Hin as [Hin | [<- | []]].
      * apply Hacc in Hin as (j' & Hj & ->). exists j'. split; [lia | reflexivity].
      * exists j. split; [lia | reflexivity].
    + intros Hin. apply Hacc in Hin as (j' & Hj & Heq).
      apply unit_name_inj in Heq. lia.
Qed.

Lemma unit_loop_succeeds i fss chs :
  forall j in_ch acc,
    (forall name, In name (map fst acc) ->
                  exists j', (j' < j)%nat /\ name = ("unit" ++ format_nat (j' + 1))%string) ->
    0 < in_ch -> Forall (fun c => 0 < c) chs ->
    foldM (unit_step i fss) (combine (seq j (List.length chs)) chs) (in_ch, acc)
    = inr (last chs in_ch, (acc ++ units_from i fss in_ch j chs)%list).
Proof.
  induction chs as [|c chs IH]; intros j in_ch acc Hacc Hin_ch Hpos.
  - cbn. now rewrite app_nil_r.
  - inversion Hpos as [|? ? Hc Hchs]; subst.
    destruct (unit_loop i fss (c :: chs) j in_ch acc Hacc) as [E | (e & E & _)];
      [exact E|].
    exfalso. revert E.
    cbn [List.length seq combine foldM unit_step].
    rewrite DwsConvBlock_succeeds by lia. cbn [bind ret].
    rewrite add_module_fresh.
    + rewrite IH; [discriminate | | exact Hc | exact Hchs].
      intros name Hin. rewrite map_app, in_app_iff in Hin.
      destruct Hin as [Hin | [<- | []]].
      * apply Hacc in Hin as (j' & Hj & ->). exists j'. split; [lia | reflexivity].
      * exists j. split; [lia | reflexivity].
    + intros Hin. apply Hacc in Hin as (j' & Hj & Heq).
      apply unit_name_inj in Heq. lia.
Qed.

Lemma last_positive (chs : list Z) (c : Z) :
  0 < c -> Forall (fun c => 0 < c) chs -> 0 < last chs c.
Proof.
  revert c. induction chs as [|x chs IH]; intros c Hc H; [exact Hc|].
  inversion H; subst. rewrite last_cons. auto.
Qed.

Lemma stages_from_names fss in_ch i stages name :
  In name (map fst (stages_from fss in_ch i stages)) ->
  exists i', (i <= i')%nat /\ name = ("stage" ++ format_nat (i' + 1))%string.
Proof.
  revert in_ch i. induction stages as [|chs stages IH]; intros in_ch i; cbn; [tauto|].
  intros [<- | H]; [eauto|].
  apply IH in H as (i' & Hi & ->). exists i'. split; [lia | reflexivity].
Qed.

Lemma stage_names_step (acc : list (string * module)) (i : nat) (m : module) :
  (forall name, In name (map fst acc) ->
                name = "init_block" \/
                exists i', (i' < i)%nat /\ name = ("stage" ++ format_nat (i' + 1))%string) ->
  forall name,
    In name (map fst (acc ++ [(("stage" ++ format_nat (i + 1))%string, m)])%list) ->
    name = "init_block" \/
    exists i', (i' < S i)%nat /\ name = ("stage" ++ format_nat (i' + 1))%string.
Proof.
  intros Hacc name Hin. rewrite map_app, in_app_iff in Hin.
  destruct Hin as [Hin | [<- | []]].
  - apply Hacc in Hin as [-> | (i' & Hi & ->)]; [now left|].
    right. exists i'. split; [lia | reflexivity].
  - right. exists i. split; [lia | reflexivity].
Qed.

Lemma stage_name_fresh (acc : list (string * module)) (i : nat) :
  (forall name, In name (map fst acc) ->
                name = "init_block" \/
                exists i', (i' < i)%nat /\ name = ("stage" ++ format_nat (i' + 1))%string) ->
  ~ In ("stage" ++ format_nat (i + 1))%string (map fst acc).
Proof.
  intros Hacc Hin. apply Hacc in Hin as [Heq | (i' & Hi & Heq)].
  - cbn in Heq. discriminate Heq.
  - apply stage_name_inj in Heq. lia.
Qed.

Lemma stage_loop fss stages :
  forall i in_ch acc,
    (forall name, In name (map fst acc) ->
                  name = "init_block" \/
                  exists i', (i' < i)%nat /\ name = ("stage" ++ format_nat (i' + 1))%string) ->
    foldM (stage_step fss) (combine (seq i (List.length stages)) stages) (in_ch, acc)
    = inr (final_channels in_ch stages, (acc ++ stages_from fss in_ch i stages)%list) \/
    exists e,
      foldM (stage_step fss) (combine (seq i (List.length stages)) stages) (in_ch, acc)
      = inl e /\ layer_error e.
Proof.
  induction stages as [|chs stages IH]; intros i in_ch acc Hacc.
  - left. cbn. now rewrite app_nil_r.
  - cbn [List.length seq combine foldM stage_step stages_from final_channels].
    unfold enumerate.
    destruct (unit_loop i fss chs 0 in_ch []) as [-> | (e & -> & He)];
      [cbn; tauto | | right; exists e; split; [reflexivity | exact He]].
    cbn [bind ret app].
    rewrite add_module_fresh by (apply stage_name_fresh, Hacc).
    replace (acc ++ _ :: stages_from fss (last chs in_ch) (S i) stages)%list
      with ((acc ++ [(("stage" ++ format_nat (i + 1))%string,
                      Module Sequential (units_from i fss in_ch 0 chs))])
            ++ stages_from fss (last chs in_ch) (S i) stages)%list
      by (rewrite <- app_assoc; reflexivity).
    apply IH. apply stage_names_step, Hacc.
Qed.

Lemma stage_loop_succeeds fss stages :
  forall i in_ch acc,
    (forall name, In name (map fst acc) ->
                  name = "init_block" \/
                  exists i', (i' < i)%nat /\ name = ("stage" ++ format_nat (i' + 1))%string) ->
    0 < in_ch -> Forall (Forall (fun c => 0 < c)) stages ->
    foldM (stage_step fss) (combine (seq i (List.length stages)) stages) (in_ch, acc)
    = inr (final_channels in_ch stages, (acc ++ stages_from fss in_ch i stages)%list).
Proof.
  induction stages as [|chs stages IH]; intros i in_ch acc Hacc Hin_ch Hpos.
  - cbn. now rewrite app_nil_r.
  - inversion Hpos as [|? ? Hchs Hstages]; subst.
    destruct (stage_loop fss (chs :: stages) i in_ch acc Hacc) as [E | (e & E & _)];
      [exact E|].
    exfalso. revert E.
    cbn [List.length seq combine foldM stage_step].
    unfold enumerate.
    rewrite unit_loop_succeeds by (cbn; tauto || assumption).
    cbn [bind ret app].
    rewrite add_module_fresh by (apply stage_name_fresh, Hacc).
    rewrite IH; [discriminate | apply stage_names_step, Hacc | | exact Hstages].
    now apply last_positive.
Qed.

Lemma final_channels_positive (stages : list (list Z)) (c : Z) :
  0 < c -> Forall (Forall (fun c => 0 < c)) stages -> 0 < final_channels c stages.
Proof.
  revert c. induction stages as [|chs stages IH]; intros c Hc H; [exact Hc|].
  inversion H; subst. cbn. apply IH; [now apply last_positive | assumption].
Qed.

(** *** The constructor *)

Lemma final_pool_fresh fss c0 stages m :
  add_module "final_pool" (Module (AvgPool2d 7 1) [])
             ([("init_block", m)] ++ stages_from fss c0 0 stages)
  = (("init_block", m) :: stages_from fss c0 0 stages
     ++ [("final_pool", Module (AvgPool2d 7 1) [])])%list.
Proof.
  rewrite add_module_fresh; [reflexivity|].
  cbn [map fst app]. intros [H | H]; [discriminate H|].
  apply stages_from_names in H as (i' & _ & H). cbn in H. discriminate H.
Qed.

(** The outcome of the structural part of the constructor on a table whose
    first stage is not empty: the tree in closed form, or the exception of
    the first layer constructor that rejects its arguments. *)
Lemma build_modules_outcome c0 r0 stages fss in_channels num_classes :
  build_modules ((c0 :: r0) :: stages) fss in_channels num_classes
  = inr (MobileNet_tree c0 stages fss in_channels num_classes) \/
  exists e,
    build_modules ((c0 :: r0) :: stages) fss in_channels num_classes = inl e /\
    layer_error e.
Proof.
  unfold build_modules, enumerate, conv3x3_block.
  cbn [first bind ret tl add_module].
  destruct (conv_block_outcome in_channels c0 3 2 1) as [-> | (e & -> & He)];
    [|right; exists e; split; [reflexivity | exact He]].
  cbn [bind].
  destruct (stage_loop fss stages 0 c0 [("init_block", conv_block_tree in_channels c0 3 2 1)])
    as [-> | (e & -> & He)];
    [cbn; intros name [<- | []]; now left
    | | right; exists e; split; [reflexivity | exact He]].
  cbn [bind]. rewrite final_pool_fresh.
  unfold new_Linear.
  destruct (_ || _); [right; eexists; split; [reflexivity | unfold layer_error; tauto]|].
  left. reflexivity.
Qed.

Lemma build_modules_succeeds c0 r0 stages fss in_channels num_classes :
  0 < c0 -> Forall (Forall (fun c => 0 < c)) stages ->
  0 <= in_channels -> 0 <= num_classes ->
  build_modules ((c0 :: r0) :: stages) fss in_channels num_classes
  = inr (MobileNet_tree c0 stages fss in_channels num_classes).
Proof.
  intros Hc0 Hstages Hin Hnc.
  unfold build_modules, enumerate, conv3x3_block.
  cbn [first bind ret tl add_module].
  rewrite conv_block_succeeds by (try apply Z.mod_1_r; lia).
  cbn [bind].
  rewrite stage_loop_succeeds; [| cbn; intros name [<- | []]; now left | exact Hc0 | exact Hstages].
  cbn [bind]. rewrite final_pool_fresh.
  unfold new_Linear.
  pose proof (final_channels_positive stages c0 Hc0 Hstages).
  destruct (Z.ltb_spec num_classes 0); [lia|].
  destruct (Z.ltb_spec (final_channels c0 stages) 0); [lia|].
  reflexivity.
Qed.

Lemma build_modules_inv channels fss in_channels num_classes m :
  build_modules channels fss in_channels num_classes = inr m ->
  exists c0 r0 stages,
    channels = (c0 :: r0) :: stages /\
    m = MobileNet_tree c0 stages fss in_channels num_classes.
Proof.
  intros H. destruct channels as [|[|c0 r0] stages]; try discriminate H.
  exists c0, r0, stages. split; [reflexivity|].
  destruct (build_modules_outcome c0 r0 stages fss in_channels num_classes)
    as [E | (e & E & _)]; rewrite E in H; congruence.
Qed.

Lemma MobileNet_init_modules channels fss in_channels in_size num_classes net :
  MobileNet_init channels fss in_channels in_size num_classes = inr net ->
  exists c0 r0 stages,
    channels = (c0 :: r0) :: stages /\
    modules net = MobileNet_tree c0 stages fss in_channels num_classes.
Proof.
  unfold MobileNet_init. intros H.
  apply bind_inr in H as (m & Hm & H).
  apply bind_inr in H as (st & _ & H). injection H as <-. cbn [modules].
  now apply build_modules_inv in Hm.
Qed.

Lemma get_unit i fss chs :
  forall j0 in_ch j c,
    nth_error chs j = Some c ->
    exists in_ch',
      get_module ("unit" ++ format_nat (j0 + j + 1)) (units_from i fss in_ch j0 chs)
      = Some (DwsConvBlock_tree in_ch' c (unit_stride i (j0 + j) fss)).
Proof.
  induction chs as [|c' chs IH]; intros j0 in_ch j c Hj; [destruct j; discriminate Hj|].
  cbn [units_from get_module].
  destruct j as [|j]; cbn in Hj.
  - injection Hj as ->. rewrite Nat.add_0_r, String.eqb_refl. eauto.
  - destruct (String.eqb_spec ("unit" ++ format_nat (j0 + 1))
                              ("unit" ++ format_nat (j0 + S j + 1))) as [Heq | _].
    + apply unit_name_inj in Heq. lia.
    + destruct (IH (S j0) c' j c Hj) as (in_ch' & Hget).
      replace (S j0 + j)%nat with (j0 + S j)%nat in Hget by lia. eauto.
Qed.

Lemma get_stage fss stages rest :
  forall i0 in_ch i chs,
    nth_error stages i = Some chs ->
    exists in_ch',
      get_module ("stage" ++ format_nat (i0 + i + 1))
                 (stages_from fss in_ch i0 stages ++ rest)
      = Some (Module Sequential (units_from (i0 + i) fss in_ch' 0 chs)).
Proof.
  induction stages as [|chs' stages IH]; intros i0 in_ch i chs Hi;
    [destruct i; discriminate Hi|].
  cbn [stages_from get_module app].
  destruct i as [|i]; cbn in Hi.
  - injection Hi as ->. rewrite Nat.add_0_r, String.eqb_refl. eauto.
  - destruct (String.eqb_spec ("stage" ++ format_nat (i0 + 1))
                              ("stage" ++ format_nat (i0 + S i + 1))) as [Heq | _].
    + apply stage_name_inj in Heq. lia.
    + destruct (IH (S i0) (last chs' in_ch) i chs Hi) as (in_ch' & Hget).
      replace (S i0 + i)%nat with (i0 + S i)%nat in Hget by lia. eauto.
Qed.

(** ** Stride policy *)

(** C3: in a constructed network, stage [i] (counted from 0, named
    [stage(i+1)]) and its unit [j] (named [unit(j+1)]) exist for every entry
    of the channel table after the first, and the unit was built with
    stride 2 when it is the first unit of a stage and the stage is not the
    first one or the flag is set, with stride 1 when it is the first unit
    of the first stage and the flag is not set, and with stride 1 when it
    is not the first unit.  The version ["orig"] selects flag false and
    ["fd"] selects flag true. *)
Theorem C3_stride_policy channels fss in_channels in_size num_classes net :
  MobileNet_init channels fss in_channels in_size num_classes = inr net ->
  (forall i j channels_per_stage out_channels,
      nth_error (tl channels) i = Some channels_per_stage ->
      nth_error channels_per_stage j = Some out_channels ->
      exists stage unit stride,
        get_module ("stage" ++ format_nat (i + 1)) (features net) = Some stage /\
        get_module ("unit" ++ format_nat (j + 1)) (children stage) = Some unit /\
        dws_stride unit = Some stride /\
        (j = 0%nat -> (i <> 0%nat \/ fss = true) -> stride = 2) /\
        (j = 0%nat -> i = 0%nat -> fss = false -> stride = 1) /\
        (j <> 0%nat -> stride = 1))
  /\ (exists table, version_table "orig" = inr (table, false))
  /\ (exists table, version_table "fd" = inr (table, true)).
Proof.
  intros H. split; [|split; eexists; reflexivity].
  apply MobileNet_init_modules in H as (c0 & r0 & stages & -> & Hm).
  intros i j chs c Hi Hj. cbn [tl] in Hi.
  unfold features. rewrite Hm. cbn [MobileNet_tree children get_module String.eqb Ascii.eqb Bool.eqb].
  cbn [children get_module].
  destruct (get_stage fss stages [("final_pool", Module (AvgPool2d 7 1) [])]
                      0%nat c0 i chs Hi) as (in_ch & Hstage).
  destruct (get_unit i fss chs 0%nat in_ch j c Hj) as (in_ch' & Hunit).
  cbn [Nat.add] in Hstage, Hunit.
  exists (Module Sequential (units_from i fss in_ch 0 chs)),
         (DwsConvBlock_tree in_ch' c (unit_stride i j fss)),
         (unit_stride i j fss).
  split.
  { cbn. exact Hstage. }
  split; [exact Hunit|]. split; [reflexivity|].
  unfold unit_stride.
  repeat split.
  - intros -> [Hi0 | ->]; cbn.
    + apply Nat.eqb_neq in Hi0. now rewrite Hi0.
    + now rewrite orb_true_r.
  - intros -> -> ->. reflexivity.
  - intros Hj0. apply Nat.eqb_neq in Hj0. now rewrite Hj0.
Qed.

(** ** The initialisation pass *)

Lemma named_modules_eq prefix l cs :
  named_modules prefix (Module l cs) = (prefix, l) :: named_children prefix cs.
Proof.
  cbn [named_modules]. f_equal.
  induction cs as [|[n c] cs IH]; [reflexivity|].
  unfold named_children. cbn [flat_map fst snd]. now rewrite IH.
Qed.

Lemma named_children_app prefix cs cs' :
  named_children prefix (cs ++ cs')
  = (named_children prefix cs ++ named_children prefix cs')%list.
Proof. apply flat_map_app. Qed.

Lemma named_children_cons prefix n c cs :
  named_children prefix ((n, c) :: cs)
  = (named_modules (submodule_name prefix n) c ++ named_children prefix cs)%list.
Proof. reflexivity. Qed.

Lemma init_params_initialised (nm : list (string * layer)) :
  Forall entry_ok nm ->
  _init_params (map (fun nl => (fst nl, (snd nl, fresh_params (snd nl)))) nm)
  = inr (map initialised nm).
Proof.
  unfold _init_params.
  induction 1 as [|[name l] nm (p & Hp & _) _ IH]; [reflexivity|].
  cbn [map mapM fst snd] in *. rewrite Hp. cbn [bind ret].
  rewrite IH. cbn [bind ret]. unfold initialised. cbn [fst snd].
  rewrite Hp. reflexivity.
Qed.

Ltac eval_names :=
  repeat first
    [ progress cbn [contains starts_with append String.eqb Ascii.eqb Bool.eqb andb orb]
    | rewrite string_app_assoc
    | rewrite contains_skip_digits by first [reflexivity | assumption]
    | rewrite contains_only_digits by first [reflexivity | assumption] ].

Ltac entry_ok_tac :=
  unfold entry_ok, init_module; cbn [fst snd fresh_params];
  eval_names;
  cbn [kaiming_normal_weight constant_weight constant_bias bind ret weight bias];
  eexists; split; [reflexivity|]; unfold entry_spec; eval_names;
  repeat split; auto.

Lemma unit_entries_ok (d1 d2 : string) (a b s : Z) :
  all_digits d1 = true -> all_digits d2 = true ->
  Forall entry_ok
         (named_modules ("features.stage" ++ d1 ++ ".unit" ++ d2) (DwsConvBlock_tree a b s)).
Proof.
  intros H1 H2.
  unfold DwsConvBlock_tree, dwconv3x3_block_tree, conv1x1_block_tree, conv_block_tree.
  rewrite !named_modules_eq.
  cbn [named_children flat_map fst snd app submodule_name append].
  rewrite !named_modules_eq.
  cbn [named_children flat_map fst snd app submodule_name append].
  rewrite !named_modules_eq.
  cbn [named_children flat_map fst snd app submodule_name append].
  repeat apply Forall_cons; try apply Forall_nil.
  - entry_ok_tac.
  - entry_ok_tac.
  - entry_ok_tac.
  - entry_ok_tac.
  - entry_ok_tac.
  - entry_ok_tac.
  - entry_ok_tac.
  - entry_ok_tac.
  - entry_ok_tac.
Qed.

Lemma unit_path (d1 d2 : string) :
  submodule_name ("features.stage" ++ d1) ("unit" ++ d2)
  = ("features.stage" ++ d1 ++ ".unit" ++ d2)%string.
Proof. reflexivity. Qed.

Lemma units_entries_ok (d1 : string) i fss chs :
  all_digits d1 = true ->
  forall in_ch j,
    Forall entry_ok
           (named_children ("features.stage" ++ d1) (units_from i fss in_ch j chs)).
Proof.
  intros H1. induction chs as [|c chs IH]; intros in_ch j; [constructor|].
  cbn [units_from]. rewrite named_children_cons, unit_path.
  apply Forall_app. split; [|apply IH].
  apply unit_entries_ok; [exact H1 | apply all_digits_format_nat].
Qed.

Lemma stages_entries_ok fss stages :
  forall in_ch i,
    Forall entry_ok (named_children "features" (stages_from fss in_ch i stages)).
Proof.
  induction stages as [|chs stages IH]; intros in_ch i; [constructor|].
  cbn [stages_from]. rewrite named_children_cons.
  apply Forall_app. split; [|apply IH].
  change (submodule_name "features" ("stage" ++ format_nat (i + 1)))
    with ("features.stage" ++ format_nat (i + 1))%string.
  rewrite named_modules_eq.
  pose proof (all_digits_format_nat (i + 1)) as Hd.
  apply Forall_cons; [|apply units_entries_ok; exact Hd].
  entry_ok_tac.
Qed.

(** Every rule of the pass meets a module that has the attributes it
    writes: the pass raises nothing on a constructed tree, and leaves each
    module as [entry_spec] says. *)
Lemma tree_entries_ok c0 stages fss in_channels num_classes :
  Forall entry_ok
         (named_modules "" (MobileNet_tree c0 stages fss in_channels num_classes)).
Proof.
  unfold MobileNet_tree. rewrite named_modules_eq.
  rewrite named_children_cons.
  change (submodule_name "" "features") with "features".
  rewrite named_modules_eq.
  rewrite named_children_cons, named_children_app.
  apply Forall_cons; [entry_ok_tac|].
  apply Forall_app. split.
  - apply Forall_cons; [entry_ok_tac|].
    apply Forall_app. split.
    + unfold conv3x3_block_tree, conv_block_tree.
      cbn [submodule_name append].
      rewrite !named_modules_eq.
      cbn [named_children flat_map fst snd app submodule_name append].
      rewrite !named_modules_eq.
      cbn [named_children flat_map fst snd app submodule_name append].
      repeat apply Forall_cons; try apply Forall_nil; entry_ok_tac.
    + apply Forall_app. split; [apply stages_entries_ok|].
      cbn. repeat apply Forall_cons; try apply Forall_nil; entry_ok_tac.
  - cbn. repeat apply Forall_cons; try apply Forall_nil; entry_ok_tac.
Qed.

Lemma init_params_tree c0 stages fss in_channels num_classes :
  _init_params (fresh_store (MobileNet_tree c0 stages fss in_channels num_classes))
  = inr (map initialised
             (named_modules "" (MobileNet_tree c0 stages fss in_channels num_classes))).
Proof.
  unfold fresh_store. apply init_params_initialised, tree_entries_ok.
Qed.

(** The constructor on a table whose first stage is not empty: the network
    in closed form, or the exception of the first layer constructor that
    rejects its arguments. *)
Lemma MobileNet_init_outcome c0 r0 stages fss in_channels in_size num_classes :
  MobileNet_init ((c0 :: r0) :: stages) fss in_channels in_size num_classes
  = inr (mkMobileNet in_size num_classes
           (MobileNet_tree c0 stages fss in_channels num_classes)
           (map initialised
                (named_modules "" (MobileNet_tree c0 stages fss in_channels num_classes))))
  \/ exists e,
      MobileNet_init ((c0 :: r0) :: stages) fss in_channels in_size num_classes = inl e /\
      layer_error e.
Proof.
  unfold MobileNet_init.
  destruct (build_modules_outcome c0 r0 stages fss in_channels num_classes)
    as [-> | (e & -> & He)];
    [|right; exists e; split; [reflexivity | exact He]].
  left. cbn [bind]. rewrite init_params_tree. reflexivity.
Qed.

(** Construction succeeds on every table of positive channel counts whose
    first stage is not empty, when the input channel count and the class
    count are not negative. *)
Lemma MobileNet_init_succeeds c0 r0 stages fss in_channels in_size num_classes :
  0 < c0 -> Forall (Forall (fun c => 0 < c)) stages ->
  0 <= in_channels -> 0 <= num_classes ->
  MobileNet_init ((c0 :: r0) :: stages) fss in_channels in_size num_classes
  = inr (mkMobileNet in_size num_classes
           (MobileNet_tree c0 stages fss in_channels num_classes)
           (map initialised
                (named_modules "" (MobileNet_tree c0 stages fss in_channels num_classes)))).
Proof.
  intros Hc0 Hstages Hin Hnc.
  unfold MobileNet_init. rewrite build_modules_succeeds by assumption. cbn [bind].
  rewrite init_params_tree. reflexivity.
Qed.

Lemma MobileNet_init_closed c0 r0 stages fss in_channels in_size num_classes net :
  MobileNet_init ((c0 :: r0) :: stages) fss in_channels in_size num_classes = inr net ->
  net = mkMobileNet in_size num_classes
          (MobileNet_tree c0 stages fss in_channels num_classes)
          (map initialised
               (named_modules "" (MobileNet_tree c0 stages fss in_channels num_classes))).
Proof.
  intros H.
  destruct (MobileNet_init_outcome c0 r0 stages fss in_channels in_size num_classes)
    as [E | (e & E & _)]; rewrite E in H; congruence.
Qed.

Lemma MobileNet_init_inv channels fss in_channels in_size num_classes net :
  MobileNet_init channels fss in_channels in_size num_classes = inr net ->
  exists c0 r0 stages,
    channels = (c0 :: r0) :: stages /\
    parameters net
    = map initialised
          (named_modules "" (MobileNet_tree c0 stages fss in_channels num_classes)).
Proof.
  intros H.
  destruct channels as [|[|c0 r0] stages]; try discriminate H.
  exists c0, r0, stages. split; [reflexivity|].
  apply MobileNet_init_closed in H. rewrite H. reflexivity.
Qed.

(** The exceptions of the constructor: [IndexError] from [channels[0][0]],
    or the exception of a layer constructor; never the model-name error of
    [get_mobilenet]. *)
Lemma MobileNet_init_error channels fss in_channels in_size num_classes e :
  MobileNet_init channels fss in_channels in_size num_classes = inl e ->
  e = IndexError \/ layer_error e.
Proof.
  intros H. destruct channels as [|[|c0 r0] stages].
  - left. cbn in H. congruence.
  - left. cbn in H. congruence.
  - right.
    destruct (MobileNet_init_outcome c0 r0 stages fss in_channels in_size num_classes)
      as [E | (e' & E & He)]; rewrite E in H; [discriminate H|].
    assert (e = e') by congruence. subst e'. exact He.
Qed.

Lemma layer_error_not_model_name e : layer_error e -> e <> model_name_error.
Proof.
  unfold layer_error, model_name_error, negative_dimension.
  intros [-> | [-> | [-> | ->]]]; discriminate.
Qed.

Lemma MobileNet_init_error_not_model_name channels fss in_channels in_size num_classes e :
  MobileNet_init channels fss in_channels in_size num_classes = inl e ->
  e <> model_name_error.
Proof.
  intros H. apply MobileNet_init_error in H as [-> | H];
    [discriminate | now apply layer_error_not_model_name].
Qed.

Lemma initialised_entry_spec nm name l p :
  Forall entry_ok nm ->
  In (name, (l, p)) (map initialised nm) ->
  In (name, l) nm /\ entry_spec name l p.
Proof.
  intros Hok Hin. apply in_map_iff in Hin as ([n l'] & Heq & Hin).
  rewrite Forall_forall in Hok. destruct (Hok _ Hin) as (p' & Hp & Hspec).
  unfold initialised in Heq. cbn [fst snd] in *. rewrite Hp in Heq.
  injection Heq as -> -> ->. auto.
Qed.

Lemma C3_stride_policy_witness :
  exists net,
    MobileNet_init [[32]; [64]; [128; 128]] false 3 (224, 224) 1000 = inr net /\
    exists stage unit,
      get_module "stage2" (features net) = Some stage /\
      get_module "unit1" (children stage) = Some unit /\
      dws_stride unit = Some 2.
Proof.
  destruct (MobileNet_init [[32]; [64]; [128; 128]] false 3 (224, 224) 1000)
    as [e | net] eqn:E; [vm_compute in E; discriminate E|].
  exists net. split; [reflexivity|].
  destruct (C3_stride_policy _ _ _ _ _ _ E) as [H _].
  destruct (H 1%nat 0%nat [128; 128] 128 eq_refl eq_refl)
    as (stage & unit & stride & Hs & Hu & Hd & H2 & _).
  exists stage, unit. split; [exact Hs|]. split; [exact Hu|].
  rewrite Hd. f_equal. apply H2; [reflexivity | left; discriminate].
Defined.

(** ** The initialisation pass: normalization layers and the stem *)

(** C8: in a constructed network every module that is a normalization
    layer, and every module whose path contains [bn], has its weight filled
    with the constant 1 and its bias filled with the constant 0; the two
    ways of picking the normalization layers agree, and the stem's
    normalization layer is one of them. *)
Theorem C8_normalization_layers channels fss in_channels in_size num_classes net :
  MobileNet_init channels fss in_channels in_size num_classes = inr net ->
  (forall name l p,
      In (name, (l, p)) (parameters net) ->
      ((exists n, l = BatchNorm2d n) <-> contains "bn" name = true) /\
      (contains "bn" name = true ->
       weight p = Some (Constant 1) /\ bias p = Some (Constant 0)))
  /\ (exists n, In ("features.init_block.bn", (BatchNorm2d n, bn_params)) (parameters net)).
Proof.
  intros H.
  apply MobileNet_init_inv in H as (c0 & r0 & stages & -> & ->).
  split.
  - intros name l p Hin.
    apply initialised_entry_spec in Hin as [_ Hspec]; [|apply tree_entries_ok].
    destruct l; cbn in Hspec;
      try (destruct Hspec as [Hbn _]; split;
           [split; [intros [n Hn]; discriminate Hn | congruence] | congruence]).
    destruct Hspec as [Hbn ->]. split; [split; eauto|]. intros _. split; reflexivity.
  - exists c0. unfold MobileNet_tree. rewrite named_modules_eq.
    cbn. right. right. right. right. left. reflexivity.
Qed.

Lemma C8_normalization_layers_witness :
  exists net,
    MobileNet_init [[32]; [64]] true 3 (224, 224) 1000 = inr net /\
    In ("features.stage1.unit1.pw_conv.bn", (BatchNorm2d 64, bn_params)) (parameters net) /\
    contains "bn" "features.stage1.unit1.pw_conv.bn" = true /\
    weight bn_params = Some (Constant 1) /\ bias bn_params = Some (Constant 0).
Proof.
  destruct (MobileNet_init [[32]; [64]] true 3 (224, 224) 1000)
    as [e | net] eqn:E; [vm_compute in E; discriminate E|].
  exists net. split; [reflexivity|].
  assert (Hin : In ("features.stage1.unit1.pw_conv.bn", (BatchNorm2d 64, bn_params))
                   (parameters net)).
  { vm_compute in E. injection E as <-. cbn. do 14 right. left. reflexivity. }
  split; [exact Hin|]. split; [reflexivity|].
  destruct (C8_normalization_layers _ _ _ _ _ _ E) as [H _].
  exact (proj2 (H _ _ _ Hin) eq_refl).
Defined.

(** C2 (what the code does): the stem convolution sits at the path
    [features.init_block.conv]; no rule of the pass matches that path, and
    in every constructed network its weight is still the one its own
    constructor gave it.  Construction succeeds on every table of positive
    channel counts whose first stage is not empty, for a positive input
    channel count and a positive class count. *)
Theorem C2_stem_convolution_left_untouched
        c0 r0 stages fss in_channels in_size num_classes :
  (0 < c0 -> Forall (Forall (fun c => 0 < c)) stages ->
   0 < in_channels -> 0 < num_classes ->
   exists net,
     MobileNet_init ((c0 :: r0) :: stages) fss in_channels in_size num_classes = inr net)
  /\ (forall net,
         MobileNet_init ((c0 :: r0) :: stages) fss in_channels in_size num_classes = inr net ->
         lookup "features.init_block.conv" (parameters net)
         = Some (Conv2d in_channels c0 3 2 1, mkParams (Some FrameworkDefault) None))
  /\ (forall p, init_module "features.init_block.conv" p = ret p).
Proof.
  split; [|split; [|reflexivity]].
  - intros Hc0 Hstages Hin Hnc. eexists.
    apply MobileNet_init_succeeds; [exact Hc0 | exact Hstages | lia | lia].
  - intros net H. apply MobileNet_init_closed in H. rewrite H.
    cbn [parameters]. unfold MobileNet_tree. rewrite named_modules_eq.
    cbn. reflexivity.
Qed.

Lemma C2_stem_convolution_left_untouched_witness :
  exists net,
    MobileNet_init [[32]; [64]] false 3 (224, 224) 1000 = inr net /\
    lookup "features.init_block.conv" (parameters net)
    = Some (Conv2d 3 32 3 2 1, mkParams (Some FrameworkDefault) None).
Proof.
  destruct (proj1 (C2_stem_convolution_left_untouched 32 [] [[64]] false 3 (224, 224) 1000))
    as (net & Hnet).
  - lia.
  - repeat constructor.
  - lia.
  - lia.
  - exists net. split; [exact Hnet|].
    exact (proj1 (proj2 (C2_stem_convolution_left_untouched
                           32 [] [[64]] false 3 (224, 224) 1000)) net Hnet).
Defined.

(** The rest of the pass: in a constructed network every module is left
    as [entry_spec] describes, so each depthwise convolution has a fan-in
    draw, each pointwise convolution a fan-out draw, each normalization
    layer the constants 1 and 0, and the classifier a fan-out draw and
    bias 0; only the stem convolution keeps its default. *)
Lemma init_pass_outcome channels fss in_channels in_size num_classes net name l p :
  MobileNet_init channels fss in_channels in_size num_classes = inr net ->
  In (name, (l, p)) (parameters net) -> entry_spec name l p.
Proof.
  intros H Hin.
  apply MobileNet_init_inv in H as (c0 & r0 & stages & -> & Hp).
  rewrite Hp in Hin.
  apply initialised_entry_spec in Hin as [_ Hspec]; [exact Hspec | apply tree_entries_ok].
Qed.

(** ** Degenerate channel tables *)




(** ** The factory *)

(** Scaling keeps the shape of the first stage. *)
Lemma scale_channels_first width_scale c r t channels :
  scale_channels width_scale ((c :: r) :: t) = inr channels ->
  exists c0 r0 stages, channels = (c0 :: r0) :: stages.
Proof.
  unfold scale_channels.
  destruct (float_ne width_scale float_one); intros H.
  - cbn [mapM] in H.
    apply bind_inr in H as (b & Hb & H).
    apply bind_inr in H as (bs & _ & H). injection H as <-.
    apply bind_inr in Hb as (c0 & _ & Hb).
    apply bind_inr in Hb as (r0 & _ & Hb). injection Hb as <-. eauto.
  - injection H as <-. eauto.
Qed.

Lemma version_table_inv version table fss :
  version_table version = inr (table, fss) ->
  (version = "orig" \/ version = "fd") /\ exists c r t, table = (c :: r) :: t.
Proof.
  unfold version_table.
  destruct (String.eqb_spec version "orig") as [-> | _].
  - intros H. injection H as <- <-. split; [now left | eauto].
  - destruct (String.eqb_spec version "fd") as [-> | _]; [|discriminate].
    intros H. injection H as <- <-. split; [now right | eauto].
Qed.

(** The float literal [0.0] and the table [get_mobilenet] hands to the
    constructor when ["orig"] is scaled by it. *)
Lemma scale_channels_zero :
  scale_channels float_zero
                 [[32]; [64]; [128; 128]; [256; 256];
                  [512; 512; 512; 512; 512; 512]; [1024; 1024]]
  = inr [[0]; [0]; [0; 0]; [0; 0]; [0; 0; 0; 0; 0; 0]; [0; 0]].
Proof. vm_compute. reflexivity. Qed.

(** C7, as stated, fails: the model-name check comes after the call of the
    constructor, so the error is not raised immediately: with the default
    arguments the whole network is built first; and with the scale [0.0]
    the call raises the constructor's exception, not the configuration
    error, although [pretrained] is set and no model name is given. *)
Lemma C7_constructor_runs_first :
  (exists net,
      MobileNet_init [[32]; [64]; [128; 128]; [256; 256];
                      [512; 512; 512; 512; 512; 512]; [1024; 1024]]
                     false 3 (224, 224) 1000 = inr net /\
      get_mobilenet keep_parameters "orig" float_one None true default_root default_kwargs
      = ([CallMobileNet [[32]; [64]; [128; 128]; [256; 256];
                         [512; 512; 512; 512; 512; 512]; [1024; 1024]] false],
         inl model_name_error))
  /\ get_mobilenet keep_parameters "orig" float_zero None true default_root default_kwargs
     = ([CallMobileNet [[0]; [0]; [0; 0]; [0; 0]; [0; 0; 0; 0; 0; 0]; [0; 0]] false],
        inl (ValueError "groups must be a positive integer"))
  /\ ValueError "groups must be a positive integer" <> model_name_error.
Proof.
  split; [|split; [|discriminate]].
  - destruct (MobileNet_init [[32]; [64]; [128; 128]; [256; 256];
                              [512; 512; 512; 512; 512; 512]; [1024; 1024]]
                             false 3 (224, 224) 1000) as [e | net] eqn:E;
      [vm_compute in E; discriminate E|].
    exists net. split; [reflexivity|].
    unfold get_mobilenet.
    change (version_table "orig") with
      (@inr exn _ ([[32]; [64]; [128; 128]; [256; 256];
                    [512; 512; 512; 512; 512; 512]; [1024; 1024]], false)).
    cbv beta iota.
    change (scale_channels float_one _) with
      (@inr exn _ [[32]; [64]; [128; 128]; [256; 256];
                   [512; 512; 512; 512; 512; 512]; [1024; 1024]]).
    cbv beta iota. cbn [kw_in_channels kw_in_size kw_num_classes default_kwargs].
    rewrite E. reflexivity.
  - unfold get_mobilenet.
    change (version_table "orig") with
      (@inr exn _ ([[32]; [64]; [128; 128]; [256; 256];
                    [512; 512; 512; 512; 512; 512]; [1024; 1024]], false)).
    cbv beta iota. rewrite scale_channels_zero.
    vm_compute. reflexivity.
Qed.

(** C7 (amended): with a version tag other than ["orig"] and ["fd"],
    [get_mobilenet] raises the unsupported-version error before any call
    is made.  With [pretrained] set and the model name [None] or empty, the
    result is an error and the loader is never called; the constructor is
    called before the name is looked at: when it returns a network the
    error is the model-name error, and when it raises, its exception is
    the error; in both cases the constructor's call is the only one. *)
Theorem C7_configuration_errors
        dl version width_scale model_name pretrained root kw :
  (version <> "orig" -> version <> "fd" ->
   get_mobilenet dl version width_scale model_name pretrained root kw
   = ([], inl (ValueError ("Unsupported MobileNet version " ++ version))))
  /\
  (pretrained = true -> model_name_missing model_name = true ->
   (exists e, snd (get_mobilenet dl version width_scale model_name pretrained root kw)
              = inl e) /\
   (forall n r, ~ In (CallDownloadModel n r)
                  (fst (get_mobilenet dl version width_scale model_name pretrained root kw))) /\
   (forall table fss channels,
       version_table version = inr (table, fss) ->
       scale_channels width_scale table = inr channels ->
       (forall net,
           MobileNet_init channels fss
                          (kw_in_channels kw) (kw_in_size kw) (kw_num_classes kw) = inr net ->
           get_mobilenet dl version width_scale model_name pretrained root kw
           = ([CallMobileNet channels fss], inl model_name_error)) /\
       (forall e,
           MobileNet_init channels fss
                          (kw_in_channels kw) (kw_in_size kw) (kw_num_classes kw) = inl e ->
           get_mobilenet dl version width_scale model_name pretrained root kw
           = ([CallMobileNet channels fss], inl e)))).
Proof.
  split.
  - intros Ho Hf. unfold get_mobilenet, version_table.
    destruct (String.eqb_spec version "orig") as [-> | _]; [congruence|].
    destruct (String.eqb_spec version "fd") as [-> | _]; [congruence|].
    reflexivity.
  - intros -> Hmissing. unfold get_mobilenet. rewrite Hmissing.
    destruct (version_table version) as [e | [table fss]] eqn:Hv.
    { split; [exists e; reflexivity|]. split; [intros n r []|].
      intros ? ? ? H. discriminate H. }
    destruct (scale_channels width_scale table) as [e | channels] eqn:Hs.
    { split; [exists e; reflexivity|]. split; [intros n r []|].
      intros ? ? ? H1 H2. injection H1 as <- <-. rewrite Hs in H2. discriminate H2. }
    destruct (MobileNet_init channels fss _ _ _) as [e | net] eqn:Hnet; cbn [fst snd].
    + split; [exists e; reflexivity|]. split.
      * intros n r [H | []]. discriminate H.
      * intros ? ? ? H1 H2. injection H1 as <- <-. rewrite Hs in H2.
        injection H2 as <-. rewrite Hnet. split.
        -- intros net H. discriminate H.
        -- intros e' H. injection H as <-. reflexivity.
    + split; [exists model_name_error; reflexivity|]. split.
      * intros n r [H | []]. discriminate H.
      * intros ? ? ? H1 H2. injection H1 as <- <-. rewrite Hs in H2.
        injection H2 as <-. rewrite Hnet. split.
        -- intros net' _. reflexivity.
        -- intros e' H. discriminate H.
Qed.

Lemma C7_configuration_errors_witness :
  get_mobilenet keep_parameters "v2" float_one None false default_root default_kwargs
  = ([], inl (ValueError "Unsupported MobileNet version v2"))
  /\ get_mobilenet keep_parameters "fd" float_0_5 None true default_root default_kwargs
     = ([CallMobileNet
           [[16]; [32]; [64; 64]; [128; 128]; [256; 256; 256; 256; 256; 512]] true],
        inl model_name_error).
Proof.
  split.
  - apply (proj1 (C7_configuration_errors keep_parameters "v2" float_one None false
                                          default_root default_kwargs));
      discriminate.
  - destruct (MobileNet_init
                [[16]; [32]; [64; 64]; [128; 128]; [256; 256; 256; 256; 256; 512]] true
                (kw_in_channels default_kwargs) (kw_in_size default_kwargs)
                (kw_num_classes default_kwargs)) as [e | net] eqn:E;
      [vm_compute in E; discriminate E|].
    apply (proj1 (proj2 (proj2 (proj2 (C7_configuration_errors
                                         keep_parameters "fd" float_0_5 None true
                                         default_root default_kwargs) eq_refl eq_refl))
                        [[32]; [64]; [128; 128]; [256; 256];
                         [512; 512; 512; 512; 512; 1024]] true
                        [[16]; [32]; [64; 64]; [128; 128]; [256; 256; 256; 256; 256; 512]]
                        eq_refl ltac:(vm_compute; reflexivity)) net).
    exact E.
Defined.

(** ** The named variants *)

Lemma get_mobilenet_loads dl version width_scale name root kw table fss channels net :
  version_table version = inr (table, fss) ->
  scale_channels width_scale table = inr channels ->
  MobileNet_init channels fss (kw_in_channels kw) (kw_in_size kw) (kw_num_classes kw)
  = inr net ->
  model_name_missing (Some name) = false ->
  get_mobilenet dl version width_scale (Some name) true root kw
  = ([CallMobileNet channels fss; CallDownloadModel name root],
     st <- dl (parameters net) name root ;;
     ret (mkMobileNet (in_size net) (num_classes net) (modules net) st)).
Proof.
  intros Hv Hs Hnet Hname. unfold get_mobilenet.
  rewrite Hv, Hs, Hnet, Hname. reflexivity.
Qed.

Lemma get_mobilenet_checks_the_name dl root kw version width_scale name table fss :
  name <> ""%string ->
  version_table version = inr (table, fss) ->
  (exists channels, scale_channels width_scale table = inr channels) ->
  passes_the_name_check dl root kw
    (fun download_model pretrained root kw =>
       get_mobilenet download_model version width_scale (Some name) pretrained root kw).
Proof.
  intros Hname Hv (channels & Hs).
  assert (Hmissing : model_name_missing (Some name) = false)
    by (destruct name; [contradiction | reflexivity]).
  exists name, channels, fss.
  split; [exact Hname|]. split; [exact Hmissing|].
  destruct (MobileNet_init channels fss _ _ _) as [e | net] eqn:Hnet.
  - split; [now apply MobileNet_init_error_not_model_name in Hnet|].
    unfold get_mobilenet. rewrite Hv, Hs, Hnet. reflexivity.
  - apply (get_mobilenet_loads _ _ _ _ _ _ table); assumption.
Qed.

Ltac scaled_table :=
  match goal with
  | |- exists channels, scale_channels ?w ?t = inr channels =>
      let r := eval vm_compute in (scale_channels w t) in
      match r with
      | inr ?c => exists c; vm_compute; reflexivity
      end
  end.

Ltac constructs :=
  match goal with
  | |- exists net, snd ?call = inr net =>
      let r := eval vm_compute in call in
      match r with
      | (_, inr ?n) => exists n; vm_compute; reflexivity
      end
  end.

(** C10: every one of the eight named variants passes [get_mobilenet] a
    fixed model name that is not empty; called with [pretrained] set, it
    never takes the missing-model-name branch: either the constructor
    raises, and its exception, which is not the model-name error, is the
    outcome, or the loader is called under the variant's own name and the
    outcome is the loader's.  With the default arguments and a loader that
    returns, each variant returns a network. *)
Theorem C10_named_variants_pass_the_name_check dl root kw :
  Forall (passes_the_name_check dl root kw) models
  /\ Forall (fun f : model_fn =>
               exists net, snd (f keep_parameters true default_root default_kwargs) = inr net)
            models.
Proof.
  split.
  - unfold models.
    repeat apply Forall_cons; try apply Forall_nil;
      (eapply get_mobilenet_checks_the_name;
       [discriminate | reflexivity | scaled_table]).
  - unfold models.
    repeat apply Forall_cons; try apply Forall_nil; constructs.
Qed.

(** ** Injected activations *)

Section ForwardProperties.
Variable sample : Type.
Variable apply_layer : module -> list sample -> list sample.
Variable view_flat : list sample -> list sample.

(** C6: an injected activation tensor with zero rows along the batch
    dimension gives the same logits (and the same latent activations)
    as no injected tensor. *)
Theorem C6_zero_rows_injection (self : MyMobilenetV1) (x latent_input : list sample)
        (return_lat_acts : bool) :
  List.length latent_input = 0%nat ->
  MyMobilenetV1_forward sample apply_layer view_flat self x
                        (Some latent_input) return_lat_acts
  = MyMobilenetV1_forward sample apply_layer view_flat self x None return_lat_acts.
Proof.
  intros Hz. apply length_zero_iff_nil in Hz. subst latent_input.
  unfold MyMobilenetV1_forward, cat0. rewrite app_nil_r. reflexivity.
Qed.
End ForwardProperties.

Lemma C6_zero_rows_injection_witness :
  MyMobilenetV1_forward nat (fun _ b => map S b) (fun b => b)
                        (mkMyMobilenetV1 [Module ReLU []] [Module (AvgPool2d 4 4) []]
                                         (Module (Linear 1024 50 false) []))
                        [1; 2]%nat (Some []) false
  = MyMobilenetV1_forward nat (fun _ b => map S b) (fun b => b)
                          (mkMyMobilenetV1 [Module ReLU []] [Module (AvgPool2d 4 4) []]
                                           (Module (Linear 1024 50 false) []))
                          [1; 2]%nat None false.
Proof.
  apply (C6_zero_rows_injection nat). reflexivity.
Defined.

(** ** Exact products in binary64 *)

Lemma shr_1_exact (q : positive) (t : Z) :
  1 <= t ->
  shr_1 (exact_record (Zpos q * 2 ^ t)) = exact_record (Zpos q * 2 ^ (t - 1)).
Proof.
  intros Ht.
  replace (Zpos q * 2 ^ t) with (2 * (Zpos q * 2 ^ (t - 1))).
  - assert (Hpos : 0 < Zpos q * 2 ^ (t - 1)) by (apply Z.mul_pos_pos; lia).
    destruct (Zpos q * 2 ^ (t - 1)) as [|r|r]; try lia. reflexivity.
  - replace t with (Z.succ (t - 1)) at 2 by lia.
    rewrite Z.pow_succ_r by lia. ring.
Qed.

Lemma iter_pos_shr_1_exact (p : positive) :
  forall (q : positive) (t : Z),
    Zpos p <= t ->
    iter_pos shr_1 p (exact_record (Zpos q * 2 ^ t))
    = exact_record (Zpos q * 2 ^ (t - Zpos p)).
Proof.
  induction p as [p IH | p IH |]; intros q t Ht; cbn [iter_pos].
  - rewrite shr_1_exact by lia. rewrite IH by lia. rewrite IH by lia.
    f_equal. f_equal. f_equal. lia.
  - rewrite IH by lia. rewrite IH by lia. f_equal. f_equal. f_equal. lia.
  - apply shr_1_exact. lia.
Qed.

Lemma shr_exact (q : positive) (t ex n : Z) :
  n <= t ->
  shr (exact_record (Zpos q * 2 ^ t)) ex n
  = if 0 <? n then (exact_record (Zpos q * 2 ^ (t - n)), ex + n)
    else (exact_record (Zpos q * 2 ^ t), ex).
Proof.
  intros Hn. destruct n as [|p|p]; cbn [shr Z.ltb Z.compare]; try reflexivity.
  rewrite iter_pos_shr_1_exact by exact Hn. reflexivity.
Qed.

Lemma Zdigits2_double (x : Z) : 0 < x -> Zdigits2 (2 * x) = Zdigits2 x + 1.
Proof.
  destruct x as [|p|p]; try lia. intros _. cbn. lia.
Qed.

Lemma Zdigits2_mul_pow2 (q : positive) (t : Z) :
  0 <= t -> Zdigits2 (Zpos q * 2 ^ t) = Zdigits2 (Zpos q) + t.
Proof.
  intros Ht. pattern t. apply natlike_ind; [| |exact Ht].
  - rewrite Z.mul_1_r. lia.
  - intros x Hx IH. rewrite Z.pow_succ_r by exact Hx.
    replace (Zpos q * (2 * 2 ^ x)) with (2 * (Zpos q * 2 ^ x)) by ring.
    rewrite Zdigits2_double by (apply Z.mul_pos_pos; lia). lia.
Qed.

Lemma digits2_pos_lower (p : positive) : 2 ^ (Zpos (digits2_pos p) - 1) <= Zpos p.
Proof.
  induction p as [p IH | p IH |]; cbn [digits2_pos].
  - rewrite Pos2Z.inj_succ. replace (Z.succ (Zpos (digits2_pos p)) - 1)
      with (Z.succ (Zpos (digits2_pos p) - 1)) by lia.
    rewrite Z.pow_succ_r by lia. lia.
  - rewrite Pos2Z.inj_succ. replace (Z.succ (Zpos (digits2_pos p)) - 1)
      with (Z.succ (Zpos (digits2_pos p) - 1)) by lia.
    rewrite Z.pow_succ_r by lia. lia.
  - cbn. lia.
Qed.

(** Rounding a mantissa whose low bits are zero to the exponent the format
    asks for loses nothing, as long as that exponent does not ask for more
    bits than are zero. *)
Lemma binary_round_aux_exact (q : positive) (t ex : Z) :
  let E := Z.max (Zdigits2 (Zpos q) + t + ex - prec) (emin prec emax) in
  ex <= E -> E - ex <= t -> E <= emax - prec ->
  exists m1 : positive,
    binary_round_aux prec emax false (Zpos q * 2 ^ t) ex loc_Exact
    = S754_finite false m1 E /\
    Zpos m1 = Zpos q * 2 ^ (t - (E - ex)).
Proof.
  intros E Hlo Hhi Hmax.
  assert (Ht : 0 <= t) by lia.
  unfold binary_round_aux, shr_fexp.
  change (shr_record_of_loc (Zpos q * 2 ^ t) loc_Exact)
    with (exact_record (Zpos q * 2 ^ t)).
  rewrite Zdigits2_mul_pow2 by exact Ht.
  replace (fexp prec emax (Zdigits2 (Zpos q) + t + ex)) with E
    by (unfold E, fexp; f_equal; lia).
  assert (Hfirst : shr (exact_record (Zpos q * 2 ^ t)) ex (E - ex)
                   = (exact_record (Zpos q * 2 ^ (t - (E - ex))), E)).
  { rewrite shr_exact by exact Hhi.
    destruct (Z.ltb_spec 0 (E - ex)).
    - f_equal. lia.
    - replace (E - ex) with 0 by lia. rewrite Z.sub_0_r. f_equal. lia. }
  rewrite Hfirst.
  cbn [shr_m exact_record loc_of_shr_record round_nearest_even].
  change (shr_record_of_loc (Zpos q * 2 ^ (t - (E - ex))) loc_Exact)
    with (exact_record (Zpos q * 2 ^ (t - (E - ex)))).
  rewrite Zdigits2_mul_pow2 by lia.
  replace (fexp prec emax (Zdigits2 (Zpos q) + (t - (E - ex)) + E)) with E
    by (unfold E, fexp; f_equal; lia).
  rewrite Z.sub_diag. cbn [shr shr_m exact_record].
  assert (Hpos : 0 < Zpos q * 2 ^ (t - (E - ex))) by (apply Z.mul_pos_pos; lia).
  destruct (Zpos q * 2 ^ (t - (E - ex))) as [|m1|m1] eqn:Hm1; try lia.
  exists m1. split; [|reflexivity].
  destruct (Z.leb_spec E (emax - prec)); [reflexivity | lia].
Qed.

Lemma bounded_inv (m : positive) (e : Z) :
  bounded prec emax m e = true ->
  Zpos (digits2_pos m) <= prec /\ emin prec emax <= e <= emax - prec /\
  (emin prec emax < e -> Zpos (digits2_pos m) = prec).
Proof.
  unfold bounded, canonical_mantissa, fexp. intros H.
  apply andb_prop in H as [Hc He].
  apply Z.eqb_eq in Hc. apply Z.leb_le in He. lia.
Qed.

(** The product of [2 ** k] and a non-negative finite float is exact. *)
Lemma SFmul_pow2_exact (k : Z) (m : positive) (e : Z) :
  0 <= k <= 52 ->
  bounded prec emax m e = true ->
  e + k <= emax - prec ->
  exists (m1 : positive) (e1 : Z),
    SFmul prec emax (S754_finite false 4503599627370496 (k - 52)) (S754_finite false m e)
    = S754_finite false m1 e1 /\
    e1 <= e + k /\
    Zpos m1 = Zpos m * 2 ^ (e + k - e1).
Proof.
  intros Hk Hb Hmax.
  apply bounded_inv in Hb as (Hd & He & _).
  assert (Hd1 : 1 <= Zpos (digits2_pos m)) by lia.
  cbn [SFmul xorb].
  replace (Zpos (4503599627370496 * m)) with (Zpos m * 2 ^ 52)
    by (rewrite Pos2Z.inj_mul; change (2 ^ 52) with 4503599627370496; lia).
  destruct (binary_round_aux_exact m 52 (k - 52 + e)) as (m1 & Hm1 & Hv).
  1-3: cbn [Zdigits2]; unfold prec, emax, emin in *; lia.
  rewrite Hm1. eexists _, _. split; [reflexivity|].
  cbn [Zdigits2] in *. unfold prec, emax, emin in *.
  split; [lia|]. rewrite Hv. f_equal. f_equal. lia.
Qed.

Lemma shiftl_mul_pow2_shift (x a b : Z) :
  0 <= a -> Z.shiftl (x * 2 ^ a) b = Z.shiftl x (a + b).
Proof.
  intros Ha. rewrite <- Z.shiftl_mul_pow2 by exact Ha.
  apply Z.shiftl_shiftl. exact Ha.
Qed.

(** The floor of [c * m * 2^e] is a shift. *)
Lemma Qfloor_scaled (c : Z) (m : positive) (e : Z) :
  Qfloor (inject_Z c * (inject_Z (Zpos m) * pow2Q e)) = Z.shiftl (c * Zpos m) e.
Proof.
  unfold pow2Q. destruct (Z.le_gt_cases 0 e) as [He | He].
  - rewrite Z.shiftl_mul_pow2 by exact He.
    change 2%Q with (inject_Z 2).
    rewrite <- Zpower_Qpower by exact He.
    rewrite <- !inject_Z_mult, Qfloor_Z. ring.
  - rewrite Z.shiftl_div_pow2 by lia.
    rewrite Zdiv_Qdiv. apply Qfloor_comp.
    replace e with (- - e)%Z at 1 by lia.
    rewrite Qpower_opp.
    change 2%Q with (inject_Z 2).
    rewrite <- Zpower_Qpower by lia.
    rewrite inject_Z_mult. unfold Qdiv. ring.
Qed.

Lemma float_of_int_pow2 (k : Z) :
  5 <= k <= 10 ->
  float_of_int (2 ^ k) = inr (S754_finite false 4503599627370496 (k - 52)).
Proof.
  intros Hk.
  assert (Hcases : k = 5 \/ k = 6 \/ k = 7 \/ k = 8 \/ k = 9 \/ k = 10) by lia.
  destruct Hcases as [-> | [-> | [-> | [-> | [-> | ->]]]]]; vm_compute; reflexivity.
Qed.

(** [int(c * s)] for a channel count [c = 2 ** k] of the base tables and a
    non-negative finite scale [s]. *)
Lemma scale_channel_pow2 (k : Z) (m : positive) (e : Z) :
  5 <= k <= 10 ->
  bounded prec emax m e = true ->
  e + k <= emax - prec ->
  scale_channel (S754_finite false m e) (2 ^ k)
  = inr (Qfloor (inject_Z (2 ^ k) * SF2Q (S754_finite false m e))).
Proof.
  intros Hk Hb Hmax.
  unfold scale_channel. rewrite float_of_int_pow2 by exact Hk. cbn [bind].
  destruct (SFmul_pow2_exact k m e) as (m1 & e1 & Hmul & He1 & Hm1); try lia; [exact Hb|].
  rewrite Hmul. cbn [int_of_float cond_Zopp SF2Q]. unfold ret. f_equal.
  rewrite Qfloor_scaled, Hm1.
  rewrite shiftl_mul_pow2_shift by lia.
  rewrite (Z.mul_comm (2 ^ k)), shiftl_mul_pow2_shift by lia.
  f_equal. lia.
Qed.

Lemma mapM_map {A B : Type} (f : A -> result B) (g : A -> B) (l : list A) :
  (forall a, In a l -> f a = inr (g a)) -> mapM f l = inr (map g l).
Proof.
  induction l as [|a l IH]; intros H; [reflexivity|].
  cbn [mapM map]. rewrite (H a) by now left. cbn [bind].
  rewrite IH by (intros; apply H; now right). reflexivity.
Qed.

Lemma float_one_eqb (s : float) : SFeqb s float_one = true <-> s = float_one.
Proof.
  split; [|intros ->; reflexivity].
  unfold SFeqb, float_one.
  destruct s as [b | b | | b m e]; cbn [SFcompare];
    try destruct b; try discriminate.
  destruct (Z.compare_spec e (-52)) as [-> | _ | _]; try discriminate.
  destruct (Pos.compare_cont Eq m 4503599627370496) eqn:Hm; try discriminate.
  apply Pos.compare_eq in Hm. now subst m.
Qed.

(** The floats the width-scale ranges over: those of the format that are
    not negative and are below [2 ** 1014]. *)
Lemma scale_range_inv (s : float) :
  valid_binary prec emax s = true ->
  SFleb (S754_zero false) s = true ->
  SFltb s float_2_1014 = true ->
  (exists b, s = S754_zero b) \/
  (exists m e, s = S754_finite false m e /\
               bounded prec emax m e = true /\ e + 10 <= emax - prec).
Proof.
  intros Hv Hle Hlt.
  destruct s as [b | b | | b m e]; [left; eauto | | discriminate Hle |].
  - destruct b; [discriminate Hle | discriminate Hlt].
  - destruct b; [discriminate Hle|].
    right. exists m, e. cbn [valid_binary] in Hv.
    split; [reflexivity|]. split; [exact Hv|].
    unfold SFltb, float_2_1014 in Hlt. cbn [SFcompare] in Hlt.
    pose proof (bounded_inv m e Hv) as (Hd & He & Hn).
    unfold prec, emax, emin in *.
    destruct (Z.compare_spec e 962) as [-> | Hlt' | Hgt]; [|lia|discriminate Hlt].
    exfalso.
    rewrite Pos.compare_cont_spec in Hlt.
    destruct (Pos.compare_spec m 4503599627370496) as [Hm | Hm | Hm];
      try discriminate Hlt.
    assert (Hd53 : Zpos (digits2_pos m) = 53) by (apply Hn; reflexivity).
    pose proof (digits2_pos_lower m) as Hlow.
    rewrite Hd53 in Hlow.
    change (2 ^ (53 - 1)) with 4503599627370496 in Hlow.
    apply Pos2Z.pos_lt_pos in Hm. clear - Hlow Hm. lia.
Qed.

Lemma version_table_entries version table fss stage c :
  version_table version = inr (table, fss) ->
  In stage table -> In c stage ->
  exists k, 5 <= k <= 10 /\ c = 2 ^ k.
Proof.
  intros Hv Hs Hc.
  assert (Hcases : c = 32 \/ c = 64 \/ c = 128 \/ c = 256 \/ c = 512 \/ c = 1024).
  { unfold version_table in Hv.
    destruct (String.eqb version "orig").
    - injection Hv as <- <-. cbn in Hs.
      repeat (destruct Hs as [<- | Hs]; [cbn in Hc; intuition auto|]).
      destruct Hs.
    - destruct (String.eqb version "fd"); [|discriminate Hv].
      injection Hv as <- <-. cbn in Hs.
      repeat (destruct Hs as [<- | Hs]; [cbn in Hc; intuition auto|]).
      destruct Hs. }
  destruct Hcases as [-> | [-> | [-> | [-> | [-> | ->]]]]];
    [exists 5 | exists 6 | exists 7 | exists 8 | exists 9 | exists 10];
    split; try lia; reflexivity.
Qed.

(** ** Width scaling *)

(** C5 (amended): for a width-scale [s] of the binary64 format that is not negative
    and is below [2 ** 1014] (so that no product leaves the finite range),
    and for either base table: when [s] is [1.0] the table is returned as
    it is; otherwise every channel count [c] is replaced by the floor of
    the exact product [c * s]. *)
Theorem C5_width_scaling version table fss (s : float) :
  version_table version = inr (table, fss) ->
  valid_binary prec emax s = true ->
  SFleb (S754_zero false) s = true ->
  SFltb s float_2_1014 = true ->
  (s = float_one -> scale_channels s table = inr table) /\
  (s <> float_one ->
   scale_channels s table
   = inr (map (map (fun c => Qfloor (inject_Z c * SF2Q s))) table)).
Proof.
  intros Hv Hvalid Hle Hlt. split.
  - intros ->. reflexivity.
  - intros Hne. unfold scale_channels, float_ne.
    destruct (SFeqb s float_one) eqn:Heq;
      [apply float_one_eqb in Heq; contradiction|].
    cbn [negb].
    apply mapM_map. intros stage Hstage.
    apply mapM_map. intros c Hc.
    destruct (version_table_entries _ _ _ _ _ Hv Hstage Hc) as (k & Hk & ->).
    destruct (scale_range_inv s Hvalid Hle Hlt) as [(b & ->) | (m & e & -> & Hb & He)].
    + unfold scale_channel. rewrite float_of_int_pow2 by exact Hk.
      cbn [bind SFmul int_of_float SF2Q].
      unfold ret. f_equal. rewrite Qmult_0_r. reflexivity.
    + apply scale_channel_pow2; [exact Hk | exact Hb | lia].
Qed.

Lemma C5_width_scaling_witness :
  scale_channels float_0_75
                 [[32]; [64]; [128; 128]; [256; 256];
                  [512; 512; 512; 512; 512; 512]; [1024; 1024]]
  = inr [[24]; [48]; [96; 96]; [192; 192];
         [384; 384; 384; 384; 384; 384]; [768; 768]].
Proof.
  rewrite (proj2 (C5_width_scaling "orig" _ false float_0_75
                                   eq_refl eq_refl eq_refl eq_refl))
    by discriminate.
  vm_compute. reflexivity.
Defined.

(** C5, as stated, fails outside that range.  [int] truncates toward
    zero: with the scale [-0.3] the ["orig"] table becomes [-9], [-19],
    [-38], ... while the floors of the products are [-10], [-20], [-39],
    ..., and the truncated table is the one handed to the constructor.
    And a product that overflows raises: with the scale [2.0 ** 1014]
    the call ends in [OverflowError] and no table is produced. *)
Lemma C5_scale_outside_the_range :
  (float_minus_0_3 <> float_one /\
   scale_channels float_minus_0_3
                  [[32]; [64]; [128; 128]; [256; 256];
                   [512; 512; 512; 512; 512; 512]; [1024; 1024]]
   = inr [[-9]; [-19]; [-38; -38]; [-76; -76];
          [-153; -153; -153; -153; -153; -153]; [-307; -307]] /\
   map (map (fun c => Qfloor (inject_Z c * SF2Q float_minus_0_3)))
       [[32]; [64]; [128; 128]; [256; 256];
        [512; 512; 512; 512; 512; 512]; [1024; 1024]]
   = [[-10]; [-20]; [-39; -39]; [-77; -77];
      [-154; -154; -154; -154; -154; -154]; [-308; -308]] /\
   fst (get_mobilenet keep_parameters "orig" float_minus_0_3 None false
                      default_root default_kwargs)
   = [CallMobileNet [[-9]; [-19]; [-38; -38]; [-76; -76];
                     [-153; -153; -153; -153; -153; -153]; [-307; -307]] false])
  /\ (float_2_1014 <> float_one /\
      scale_channels float_2_1014
                     [[32]; [64]; [128; 128]; [256; 256];
                      [512; 512; 512; 512; 512; 512]; [1024; 1024]]
      = inl OverflowError /\
      get_mobilenet keep_parameters "orig" float_2_1014 None false
                    default_root default_kwargs
      = ([], inl OverflowError)).
Proof.
  split; split; try discriminate; repeat split; vm_compute; reflexivity.
Qed.

(** * Further properties *)

(** ** Induction over module trees *)

Lemma module_induction (P : module -> Prop) :
  (forall l cs, Forall (fun nc => P (snd nc)) cs -> P (Module l cs)) ->
  forall m, P m.
Proof.
  intros HP.
  exact (fix IH (m : module) : P m :=
           match m with
           | Module l cs =>
               HP l cs
                  ((fix go (cs : list (string * module))
                    : Forall (fun nc => P (snd nc)) cs :=
                      match cs with
                      | [] => Forall_nil _
                      | nc :: cs' =>
                          Forall_cons nc
                            (match nc as p return P (snd p) with
                             | (_, c) => IH c
                             end)
                            (go cs')
                      end) cs)
           end).
Qed.

(** ** [remove_sequential] *)

Lemma leaf_layers_head n c cs :
  leaf_layers ((n, c) :: cs)
  = ((if is_Sequential c then remove_sequential c [] else [c]) ++ leaf_layers cs)%list.
Proof. reflexivity. Qed.

Lemma remove_sequential_eq l cs acc :
  remove_sequential (Module l cs) acc
  = fold_left (fun acc nc => if is_Sequential (snd nc)
                             then remove_sequential (snd nc) acc
                             else (acc ++ [snd nc])%list) cs acc.
Proof.
  cbn [remove_sequential]. revert acc.
  induction cs as [|[n c] cs IH]; intros acc; [reflexivity|].
  cbn [fold_left snd]. apply IH.
Qed.

Lemma remove_sequential_acc network all_layers :
  remove_sequential network all_layers
  = (all_layers ++ remove_sequential network [])%list.
Proof.
  revert all_layers. induction network as [l cs IH] using module_induction.
  intros acc. rewrite !remove_sequential_eq.
  assert (Hgen : forall acc0,
             fold_left (fun acc nc => if is_Sequential (snd nc)
                                      then remove_sequential (snd nc) acc
                                      else (acc ++ [snd nc])%list) cs acc0
             = (acc0 ++ leaf_layers cs)%list).
  { induction IH as [|[n c] cs Hc _ IHcs]; intros acc0.
    - cbn. now rewrite app_nil_r.
    - cbn [fold_left leaf_layers flat_map snd] in *.
      rewrite IHcs.
      destruct (is_Sequential c).
      + rewrite (Hc acc0), <- app_assoc. reflexivity.
      + rewrite <- app_assoc. reflexivity. }
  rewrite (Hgen acc), (Hgen []). reflexivity.
Qed.

Lemma remove_sequential_leaf_layers l cs :
  remove_sequential (Module l cs) [] = leaf_layers cs.
Proof.
  rewrite remove_sequential_eq.
  assert (Hgen : forall acc0,
             fold_left (fun acc nc => if is_Sequential (snd nc)
                                      then remove_sequential (snd nc) acc
                                      else (acc ++ [snd nc])%list) cs acc0
             = (acc0 ++ leaf_layers cs)%list).
  { induction cs as [|[n c] cs IHcs]; intros acc0.
    - cbn. now rewrite app_nil_r.
    - cbn [fold_left leaf_layers flat_map snd] in *.
      rewrite IHcs.
      destruct (is_Sequential c).
      + rewrite (remove_sequential_acc c acc0), <- app_assoc. reflexivity.
      + rewrite <- app_assoc. reflexivity. }
  apply (Hgen []).
Qed.

(** [remove_sequential] only appends to the list it is given: what was
    there stays in front, in order, and what is appended does not depend
    on it. *)
Theorem remove_sequential_appends network all_layers :
  remove_sequential network all_layers
  = (all_layers ++ remove_sequential network [])%list.
Proof.
  revert all_layers. induction network as [l cs IH] using module_induction.
  intros acc. rewrite !remove_sequential_eq.
  assert (Hgen : forall acc0,
             fold_left (fun acc nc => if is_Sequential (snd nc)
                                      then remove_sequential (snd nc) acc
                                      else (acc ++ [snd nc])%list) cs acc0
             = (acc0 ++ leaf_layers cs)%list).
  { induction IH as [|[n c] cs Hc _ IHcs]; intros acc0.
    - cbn. now rewrite app_nil_r.
    - cbn [fold_left snd] in *. rewrite IHcs, leaf_layers_head.
      destruct (is_Sequential c).
      + rewrite (Hc acc0), <- app_assoc. reflexivity.
      + rewrite <- app_assoc. reflexivity. }
  rewrite (Hgen acc), (Hgen []). reflexivity.
Qed.

(** No entry of the list [remove_sequential] builds is an [nn.Sequential]:
    every container of that kind is opened, at any depth. *)
Theorem remove_sequential_no_Sequential network :
  Forall (fun layer => is_Sequential layer = false) (remove_sequential network []).
Proof.
  induction network as [l cs IH] using module_induction.
  rewrite remove_sequential_leaf_layers.
  induction IH as [|[n c] cs Hc _ IHcs]; [constructor|].
  cbn [leaf_layers flat_map snd] in *.
  apply Forall_app. split; [|exact IHcs].
  destruct (is_Sequential c) eqn:Hs; [exact Hc|].
  constructor; [exact Hs | constructor].
Qed.

(** ** [remove_DwsConvBlock] *)

Lemma remove_DwsConvBlock_flat_map cur_layers :
  remove_DwsConvBlock cur_layers = flat_map expand_DwsConvBlock cur_layers.
Proof.
  unfold remove_DwsConvBlock.
  assert (Hch : forall (cs : list (string * module)) acc,
             fold_left (fun acc ch => (acc ++ [snd ch])%list) cs acc
             = (acc ++ map snd cs)%list).
  { induction cs as [|c cs IH]; intros acc; cbn.
    - now rewrite app_nil_r.
    - rewrite IH, <- app_assoc. reflexivity. }
  assert (Hgen : forall l acc,
             fold_left
               (fun all_layers layer =>
                  if is_DwsConvBlock layer
                  then fold_left (fun acc ch => (acc ++ [snd ch])%list)
                                 (children layer) all_layers
                  else (all_layers ++ [layer])%list) l acc
             = (acc ++ flat_map expand_DwsConvBlock l)%list).
  { induction l as [|m l IH]; intros acc; cbn [fold_left flat_map].
    - now rewrite app_nil_r.
    - rewrite IH. unfold expand_DwsConvBlock at 2.
      destruct (is_DwsConvBlock m).
      + rewrite Hch, <- app_assoc. reflexivity.
      + rewrite <- app_assoc. reflexivity. }
  apply (Hgen cur_layers []).
Qed.

(** [remove_DwsConvBlock] works layer by layer: it distributes over
    concatenation, returns a list without [DwsConvBlock]s as it is, and
    never makes the list shorter when every block has children. *)
Theorem remove_DwsConvBlock_layerwise (a b : list module) :
  remove_DwsConvBlock (a ++ b) = (remove_DwsConvBlock a ++ remove_DwsConvBlock b)%list
  /\ (Forall (fun layer => is_DwsConvBlock layer = false) a ->
      remove_DwsConvBlock a = a)
  /\ (Forall (fun layer => is_DwsConvBlock layer = true -> children layer <> []) a ->
      (List.length a <= List.length (remove_DwsConvBlock a))%nat).
Proof.
  rewrite !remove_DwsConvBlock_flat_map. split; [apply flat_map_app|]. split.
  - induction 1 as [|m l Hm _ IH]; [reflexivity|].
    cbn [flat_map]. unfold expand_DwsConvBlock at 1. rewrite Hm, IH. reflexivity.
  - induction 1 as [|m l Hm _ IH]; [cbn; lia|].
    cbn [flat_map]. rewrite length_app. unfold expand_DwsConvBlock at 1.
    destruct (is_DwsConvBlock m).
    + specialize (Hm eq_refl). rewrite length_map.
      destruct (children m); [contradiction|]. cbn in *. lia.
    + cbn in *. lia.
Qed.

Lemma remove_DwsConvBlock_layerwise_witness :
  remove_DwsConvBlock [Module (AvgPool2d 7 1) []; Module ReLU []]
  = [Module (AvgPool2d 7 1) []; Module ReLU []]
  /\ (List.length [DwsConvBlock_tree 32 64 1; Module ReLU []]
      <= List.length (remove_DwsConvBlock [DwsConvBlock_tree 32 64 1; Module ReLU []]))%nat.
Proof.
  split.
  - apply (proj1 (proj2 (remove_DwsConvBlock_layerwise
                           [Module (AvgPool2d 7 1) []; Module ReLU []] []))).
    repeat constructor.
  - apply (proj2 (proj2 (remove_DwsConvBlock_layerwise
                           [DwsConvBlock_tree 32 64 1; Module ReLU []] []))).
    repeat constructor; discriminate.
Defined.

(** ** Flattening a constructed network *)

(** The blocks of the units of a stage, and of the stages, in order. *)
Lemma forward_order_Sequential cs :
  forward_order (Module Sequential cs) = flat_map (fun nc => forward_order (snd nc)) cs.
Proof.
  cbn [forward_order].
  induction cs as [|[n c] cs IH]; [reflexivity|].
  cbn [flat_map snd]. now rewrite IH.
Qed.

Lemma leaf_layers_cons n c cs :
  leaf_layers ((n, c) :: cs)
  = ((if is_Sequential c then remove_sequential c [] else [c]) ++ leaf_layers cs)%list.
Proof. reflexivity. Qed.

Lemma leaf_layers_leaves (cs : list (string * module)) :
  (forall nc, In nc cs -> is_Sequential (snd nc) = false) ->
  leaf_layers cs = map snd cs.
Proof.
  induction cs as [|[n c] cs IH]; intros H; [reflexivity|].
  pose proof (H (n, c) (or_introl eq_refl)) as Hc. cbn [snd] in Hc.
  rewrite leaf_layers_cons, Hc. cbn [map snd app]. f_equal.
  apply IH. intros nc Hin. apply H. now right.
Qed.

Lemma units_flatten i fss chs :
  forall in_ch j,
    flat_map expand_DwsConvBlock (leaf_layers (units_from i fss in_ch j chs))
    = forward_order (Module Sequential (units_from i fss in_ch j chs))
    /\ List.length (forward_order (Module Sequential (units_from i fss in_ch j chs)))
       = (2 * List.length chs)%nat.
Proof.
  induction chs as [|c chs IH]; intros in_ch j; [split; reflexivity|].
  rewrite forward_order_Sequential.
  cbn [units_from]. rewrite leaf_layers_cons.
  destruct (IH c (S j)) as [IH1 IH2]. rewrite forward_order_Sequential in IH1, IH2.
  change (is_Sequential (DwsConvBlock_tree in_ch c (unit_stride i j fss))) with false.
  cbn iota. rewrite flat_map_app, IH1. cbn [flat_map snd].
  split; [reflexivity|].
  rewrite length_app, IH2. cbn. lia.
Qed.

Lemma stages_flatten fss stages :
  forall in_ch i rest,
    (forall nc, In nc rest -> is_Sequential (snd nc) = false) ->
    flat_map expand_DwsConvBlock (leaf_layers (stages_from fss in_ch i stages ++ rest))
    = (forward_order (Module Sequential (stages_from fss in_ch i stages))
       ++ flat_map expand_DwsConvBlock (map snd rest))%list
    /\ List.length (forward_order (Module Sequential (stages_from fss in_ch i stages)))
       = (2 * unit_count stages)%nat.
Proof.
  induction stages as [|chs stages IH]; intros in_ch i rest Hrest.
  - cbn [stages_from app]. split; [|reflexivity].
    rewrite leaf_layers_leaves by exact Hrest. reflexivity.
  - rewrite forward_order_Sequential.
    cbn [stages_from app]. rewrite leaf_layers_cons.
    change (is_Sequential (Module Sequential (units_from i fss in_ch 0 chs))) with true.
    cbn iota. rewrite remove_sequential_leaf_layers, flat_map_app.
    destruct (units_flatten i fss chs in_ch 0%nat) as [Hu1 Hu2].
    destruct (IH (last chs in_ch) (S i) rest Hrest) as [IH1 IH2].
    rewrite forward_order_Sequential in IH1, IH2.
    rewrite Hu1, IH1. cbn [flat_map snd]. rewrite <- app_assoc.
    split; [reflexivity|].
    rewrite length_app, Hu2, IH2. unfold unit_count. cbn [List.concat].
    rewrite length_app. lia.
Qed.

(** For every channel table the constructor accepts, the list that
    [remove_sequential] followed by [remove_DwsConvBlock] computes is the
    forward order of the network: the stem, the depthwise and the
    pointwise block of every unit, the pool, then the classifier; it has
    two entries per unit and three more. *)
Theorem flatten_layers_is_forward_order
        channels fss in_channels in_size num_classes net :
  MobileNet_init channels fss in_channels in_size num_classes = inr net ->
  flatten_layers (modules net) = MobileNet_forward_order (modules net) /\
  List.length (flatten_layers (modules net)) = (2 * unit_count (tl channels) + 3)%nat /\
  last (flatten_layers (modules net)) (Module ReLU [])
  = Module (Linear (final_channels (hd 0 (hd [] channels)) (tl channels))
                   num_classes true) [].
Proof.
  intros H. apply MobileNet_init_modules in H as (c0 & r0 & stages & -> & ->).
  cbn [tl hd].
  assert (Hflat : flatten_layers (MobileNet_tree c0 stages fss in_channels num_classes)
                  = MobileNet_forward_order
                      (MobileNet_tree c0 stages fss in_channels num_classes)
                  /\ List.length
                       (MobileNet_forward_order
                          (MobileNet_tree c0 stages fss in_channels num_classes))
                     = (2 * unit_count stages + 3)%nat
                  /\ last (MobileNet_forward_order
                             (MobileNet_tree c0 stages fss in_channels num_classes))
                          (Module ReLU [])
                     = Module (Linear (final_channels c0 stages) num_classes true) []).
  { unfold flatten_layers, MobileNet_tree, MobileNet_forward_order.
    rewrite remove_sequential_leaf_layers, remove_DwsConvBlock_flat_map.
    cbn [children get_module String.eqb Ascii.eqb Bool.eqb].
    rewrite !leaf_layers_cons.
    change (is_Sequential (Module Sequential ?x)) with true. cbn iota.
    change (is_Sequential (Module (Linear (final_channels c0 stages) num_classes true) []))
      with false. cbn iota.
    rewrite remove_sequential_leaf_layers, leaf_layers_cons.
    change (is_Sequential (conv3x3_block_tree in_channels c0 2)) with false. cbn iota.
    change (leaf_layers []) with (@nil module).
    rewrite forward_order_Sequential. cbn [flat_map snd].
    rewrite !flat_map_app.
    destruct (stages_flatten fss stages c0 0%nat
                             [("final_pool", Module (AvgPool2d 7 1) [])]) as [Hs1 Hs2].
    { intros nc [<- | []]. reflexivity. }
    rewrite forward_order_Sequential in Hs1, Hs2.
    rewrite Hs1.
    cbn [map snd flat_map app].
    change (expand_DwsConvBlock (conv3x3_block_tree in_channels c0 2))
      with [conv3x3_block_tree in_channels c0 2].
    change (expand_DwsConvBlock (Module (AvgPool2d 7 1) []))
      with [Module (AvgPool2d 7 1) []].
    change (expand_DwsConvBlock (Module (Linear (final_channels c0 stages) num_classes true) []))
      with [Module (Linear (final_channels c0 stages) num_classes true) []].
    change (forward_order (conv3x3_block_tree in_channels c0 2))
      with [conv3x3_block_tree in_channels c0 2].
    change (forward_order (Module (AvgPool2d 7 1) [])) with [Module (AvgPool2d 7 1) []].
    cbn [app]. rewrite <- !app_assoc. cbn [app].
    split; [reflexivity|]. split.
    - cbn [List.length]. rewrite length_app, Hs2. cbn. lia.
    - match goal with
      | |- last (?x :: ?F ++ [?a; ?b])%list _ = _ =>
          replace (x :: F ++ [a; b])%list with ((x :: F ++ [a]) ++ [b])%list
            by (cbn [app]; rewrite <- app_assoc; reflexivity)
      end.
      apply last_last. }
  destruct Hflat as (H1 & H2 & H3). rewrite H1. auto.
Qed.

Lemma flatten_layers_is_forward_order_witness :
  exists net,
    MobileNet_init [[32]; [64]; [128; 128]] true 3 (224, 224) 10 = inr net /\
    flatten_layers (modules net) = MobileNet_forward_order (modules net) /\
    List.length (flatten_layers (modules net)) = 9%nat.
Proof.
  destruct (MobileNet_init [[32]; [64]; [128; 128]] true 3 (224, 224) 10)
    as [e | net] eqn:E; [vm_compute in E; discriminate E|].
  exists net. split; [reflexivity|].
  destruct (flatten_layers_is_forward_order _ _ _ _ _ _ E) as (H1 & H2 & _).
  split; [exact H1 | exact H2].
Defined.

(** ** The initialisation pass on any store *)

Lemma init_module_keeps_attrs name p p' :
  init_module name p = inr p' ->
  has_attrs p' = has_attrs p /\ init_module name p' = inr p'.
Proof.
  unfold init_module, kaiming_normal_weight, constant_weight, constant_bias, has_attrs.
  destruct p as [[w|] [b|]];
    destruct (contains "dw_conv.conv" name);
    destruct (String.eqb name "init_block.conv" || contains "pw_conv.conv" name);
    destruct (contains "bn" name);
    destruct (contains "output" name);
    cbn; intros H; try discriminate H; injection H as <-; cbn; split; reflexivity.
Qed.

(** [_init_params] changes parameter values only: on any store on which
    it raises nothing, it keeps the paths, their order, the layer of each
    module, and which of [weight] and [bias] each module has. *)
Theorem init_params_keeps_structure (st st' : store) :
  _init_params st = inr st' ->
  map (fun e => (fst e, fst (snd e), has_attrs (snd (snd e)))) st'
  = map (fun e => (fst e, fst (snd e), has_attrs (snd (snd e)))) st.
Proof.
  unfold _init_params. revert st'.
  induction st as [|[name [l p]] st IH]; intros st' H; cbn [mapM] in H.
  - injection H as <-. reflexivity.
  - apply bind_inr in H as (e & He & H).
    apply bind_inr in H as (rest & Hrest & H). injection H as <-.
    apply bind_inr in He as (p' & Hp & He). injection He as <-.
    cbn [map fst snd]. rewrite (IH _ Hrest).
    destruct (init_module_keeps_attrs _ _ _ Hp) as [-> _]. reflexivity.
Qed.

(** [_init_params] is idempotent: a second pass over the store the first
    one left raises nothing and changes nothing. *)
Theorem init_params_idempotent (st st' : store) :
  _init_params st = inr st' -> _init_params st' = inr st'.
Proof.
  unfold _init_params. revert st'.
  induction st as [|[name [l p]] st IH]; intros st' H; cbn [mapM] in H.
  - injection H as <-. reflexivity.
  - apply bind_inr in H as (e & He & H).
    apply bind_inr in H as (rest & Hrest & H). injection H as <-.
    apply bind_inr in He as (p' & Hp & He). injection He as <-.
    cbn [mapM]. destruct (init_module_keeps_attrs _ _ _ Hp) as [_ ->].
    cbn [bind ret]. rewrite (IH _ Hrest). reflexivity.
Qed.

Lemma init_params_keeps_structure_witness :
  exists st',
    _init_params [("features.stage1.unit1.dw_conv.conv",
                   (Conv2d 32 32 3 1 32, mkParams (Some FrameworkDefault) None));
                  ("output", (Linear 32 10 true,
                              mkParams (Some FrameworkDefault) (Some FrameworkDefault)))]
    = inr st' /\
    map (fun e => (fst e, fst (snd e), has_attrs (snd (snd e)))) st'
    = [("features.stage1.unit1.dw_conv.conv", Conv2d 32 32 3 1 32, (true, false));
       ("output", Linear 32 10 true, (true, true))].
Proof.
  eexists. split; [reflexivity|].
  apply (init_params_keeps_structure
           [("features.stage1.unit1.dw_conv.conv",
             (Conv2d 32 32 3 1 32, mkParams (Some FrameworkDefault) None));
            ("output", (Linear 32 10 true,
                        mkParams (Some FrameworkDefault) (Some FrameworkDefault)))]).
  reflexivity.
Defined.

Lemma init_params_idempotent_witness :
  _init_params [("features.init_block.bn",
                 (BatchNorm2d 32, mkParams (Some (Constant 1)) (Some (Constant 0))));
                ("output", (Linear 32 10 true,
                            mkParams (Some (KaimingNormal fan_out)) (Some (Constant 0))))]
  = inr [("features.init_block.bn",
          (BatchNorm2d 32, mkParams (Some (Constant 1)) (Some (Constant 0))));
         ("output", (Linear 32 10 true,
                     mkParams (Some (KaimingNormal fan_out)) (Some (Constant 0))))].
Proof.
  apply (init_params_idempotent
           [("features.init_block.bn",
             (BatchNorm2d 32, mkParams (Some FrameworkDefault) (Some FrameworkDefault)));
            ("output", (Linear 32 10 true,
                        mkParams (Some FrameworkDefault) (Some FrameworkDefault)))]).
  reflexivity.
Defined.

(** ** Width scaling keeps the shape of the table *)

Lemma mapM_length {A B : Type} (f : A -> result B) (l : list A) (l' : list B) :
  mapM f l = inr l' -> List.length l' = List.length l.
Proof.
  revert l'. induction l as [|a l IH]; intros l' H; cbn in H.
  - injection H as <-. reflexivity.
  - apply bind_inr in H as (b & _ & H).
    apply bind_inr in H as (bs & Hbs & H).
    injection H as <-. cbn. f_equal. auto.
Qed.

(** Whatever the table and the width-scale, a table that [get_mobilenet]
    manages to scale has as many stages as the one it started from, and as
    many units in each stage: scaling changes widths, never the depth. *)
Theorem scale_channels_keeps_shape (width_scale : float) (channels scaled : list (list Z)) :
  scale_channels width_scale channels = inr scaled ->
  map (@List.length Z) scaled = map (@List.length Z) channels.
Proof.
  unfold scale_channels. destruct (float_ne width_scale float_one); intros H.
  - revert scaled H. induction channels as [|ci channels IH]; intros scaled H; cbn [mapM] in H.
    + injection H as <-. reflexivity.
    + apply bind_inr in H as (b & Hb & H).
      apply bind_inr in H as (bs & Hbs & H). injection H as <-.
      cbn [map]. rewrite (IH _ Hbs). f_equal. apply (mapM_length _ _ _ Hb).
  - injection H as <-. reflexivity.
Qed.

Lemma scale_channels_keeps_shape_witness :
  exists scaled,
    scale_channels float_0_25 [[7]; [20; 33]; []] = inr scaled /\
    map (@List.length Z) scaled = [1; 2; 0]%nat.
Proof.
  destruct (scale_channels float_0_25 [[7]; [20; 33]; []]) as [e | scaled] eqn:E;
    [vm_compute in E; discriminate E|].
  exists scaled. split; [reflexivity|].
  apply (scale_channels_keeps_shape float_0_25 [[7]; [20; 33]; []] scaled E).
Defined.

(** ** [get_mobilenet] without pretrained weights *)

(** With [pretrained] false, [get_mobilenet] never calls the loader, and
    its result and its calls do not depend on the loader, on [model_name]
    or on [root]. *)
Theorem get_mobilenet_not_pretrained
        dl dl' version width_scale model_name model_name' root root' kw :
  get_mobilenet dl version width_scale model_name false root kw
  = get_mobilenet dl' version width_scale model_name' false root' kw
  /\ forall n r,
      ~ In (CallDownloadModel n r)
           (fst (get_mobilenet dl version width_scale model_name false root kw)).
Proof.
  unfold get_mobilenet.
  destruct (version_table version) as [e | [channels fss]];
    [split; [reflexivity | intros n r []]|].
  destruct (scale_channels width_scale channels) as [e | scaled];
    [split; [reflexivity | intros n r []]|].
  destruct (MobileNet_init scaled fss _ _ _) as [e | net];
    (split; [reflexivity | intros n r [H | []]; discriminate H]).
Qed.

(** ** [_calc_width] *)

Ltac not_pretrained_count :=
  match goal with
  | |- exists net, snd ?call = inr net /\ _calc_width net = ?n =>
      let r := eval vm_compute in (snd call) in
      match r with
      | inr ?net => exists net; split; vm_compute; reflexivity
      end
  end.

(** The assertions of [_test]: built without pretrained weights, each of
    the eight named variants has the trainable parameter count the test
    expects of it. *)
Theorem calc_width_matches_test dl root :
  Forall2 (fun (f : model_fn) (n : Z) =>
             exists net, snd (f dl false root default_kwargs) = inr net /\
                         _calc_width net = n)
          models expected_weight_counts.
Proof.
  unfold models, expected_weight_counts.
  repeat apply Forall2_cons; try apply Forall2_nil; not_pretrained_count.
Qed.

Lemma fold_left_numel (sizes : list (list Z)) (a : Z) :
  fold_left (fun weight_count size => weight_count + numel size) sizes a
  = a + fold_right (fun size acc => numel size + acc) 0 sizes.
Proof.
  revert a. induction sizes as [|s sizes IH]; intros a; cbn [fold_left fold_right].
  - lia.
  - rewrite IH. lia.
Qed.

Lemma fold_right_numel_app (a b : list (list Z)) :
  fold_right (fun size acc => numel size + acc) 0 (a ++ b)
  = fold_right (fun size acc => numel size + acc) 0 a
    + fold_right (fun size acc => numel size + acc) 0 b.
Proof.
  induction a as [|s a IH]; cbn [app fold_right]; [reflexivity | rewrite IH; lia].
Qed.

Lemma modules_numel_app (a b : list (string * layer)) :
  modules_numel (a ++ b) = modules_numel a + modules_numel b.
Proof.
  unfold modules_numel.
  induction a as [|e a IH]; cbn [app fold_right]; [reflexivity | rewrite IH; lia].
Qed.

(** After a pass that raised nothing, the count is the one of the
    parameters the layers were constructed with. *)
Lemma initialised_numel (nm : list (string * layer)) :
  Forall entry_ok nm ->
  fold_right (fun size acc => numel size + acc) 0
             (parameter_sizes (map initialised nm))
  = modules_numel nm.
Proof.
  unfold parameter_sizes, modules_numel.
  induction 1 as [|[name l] nm (p & Hp & _) _ IH]; [reflexivity|].
  cbn [map flat_map fold_right snd]. rewrite fold_right_numel_app, IH. f_equal.
  unfold initialised, layer_numel. cbn [fst snd] in *. rewrite Hp.
  destruct (init_module_keeps_attrs _ _ _ Hp) as [Ha _].
  unfold module_parameter_sizes, has_attrs in *.
  destruct (weight p), (bias p), (weight (fresh_params l)), (bias (fresh_params l));
    try discriminate Ha; reflexivity.
Qed.

Lemma unit_numel (name : string) (a b s : Z) :
  a <> 0 ->
  modules_numel (named_modules name (DwsConvBlock_tree a b s)) = unit_weight_count a b.
Proof.
  intros Ha. unfold DwsConvBlock_tree, dwconv3x3_block_tree, conv1x1_block_tree, conv_block_tree.
  rewrite !named_modules_eq.
  cbn [named_children flat_map fst snd app].
  rewrite !named_modules_eq.
  cbn [named_children flat_map fst snd app].
  rewrite !named_modules_eq.
  cbn [named_children flat_map fst snd app].
  unfold modules_numel, layer_numel, unit_weight_count.
  cbn [fold_right snd fresh_params module_parameter_sizes weight bias app
       weight_size bias_size numel fold_left].
  rewrite Z.div_same by exact Ha. rewrite Z.div_1_r. ring.
Qed.

Lemma units_numel (prefix : string) i fss chs :
  forall in_ch j,
    in_ch <> 0 -> Forall (fun c => c <> 0) chs ->
    modules_numel (named_children prefix (units_from i fss in_ch j chs))
    = units_weight_count in_ch chs.
Proof.
  induction chs as [|c chs IH]; intros in_ch j Hin Hchs; [reflexivity|].
  inversion Hchs as [|? ? Hc Hrest]; subst.
  cbn [units_from units_weight_count].
  rewrite named_children_cons, modules_numel_app, unit_numel by exact Hin.
  rewrite IH by assumption. reflexivity.
Qed.

Lemma last_nonzero (chs : list Z) (d : Z) :
  d <> 0 -> Forall (fun c => c <> 0) chs -> last chs d <> 0.
Proof.
  intros Hd H. revert d Hd. induction H as [|c chs Hc _ IH]; intros d Hd; [exact Hd|].
  rewrite last_cons. apply IH. exact Hc.
Qed.

Lemma stages_numel fss stages :
  forall in_ch i,
    in_ch <> 0 -> Forall (Forall (fun c => c <> 0)) stages ->
    modules_numel (named_children "features" (stages_from fss in_ch i stages))
    = stages_weight_count in_ch stages.
Proof.
  induction stages as [|chs stages IH]; intros in_ch i Hin Hst; [reflexivity|].
  inversion Hst as [|? ? Hchs Hrest]; subst.
  cbn [stages_from stages_weight_count].
  rewrite named_children_cons, modules_numel_app, named_modules_eq.
  rewrite IH by (try apply last_nonzero; assumption).
  change (modules_numel ((?n, Sequential) :: ?rest)) with (0 + modules_numel rest).
  rewrite units_numel by assumption. lia.
Qed.

(** The trainable parameter count of a constructed network is a function
    of the channel table, the input channels and the class count alone:
    [9 * in * c0 + 2 * c0] for the stem, [9a + 2a + ab + 2b] for every
    unit from [a] to [b] channels, and [C * n + n] for the classifier.  It
    depends neither on the stride flag nor on [in_size]. *)
Theorem calc_width_of_table c0 r0 stages fss in_channels in_size num_classes net :
  c0 <> 0 -> Forall (Forall (fun c => c <> 0)) stages ->
  MobileNet_init ((c0 :: r0) :: stages) fss in_channels in_size num_classes = inr net ->
  _calc_width net = table_weight_count in_channels c0 stages num_classes.
Proof.
  intros Hc0 Hst H.
  apply MobileNet_init_inv in H as (c0' & r0' & stages' & Heq & Hp).
  injection Heq as <- <- <-.
  unfold _calc_width. rewrite Hp, fold_left_numel, initialised_numel
    by apply tree_entries_ok.
  unfold MobileNet_tree. rewrite named_modules_eq.
  rewrite named_children_cons.
  change (submodule_name "" "features") with "features".
  rewrite named_modules_eq, named_children_cons, named_children_app.
  change (modules_numel ((?n, MobileNetL) :: ?rest)) with (0 + modules_numel rest).
  rewrite !modules_numel_app.
  change (modules_numel ((?n, Sequential) :: ?rest)) with (0 + modules_numel rest).
  rewrite !modules_numel_app, stages_numel by assumption.
  unfold table_weight_count, conv3x3_block_tree, conv_block_tree.
  rewrite !named_modules_eq.
  cbn [named_children flat_map fst snd app submodule_name append].
  rewrite !named_modules_eq.
  cbn [named_children flat_map fst snd app].
  unfold modules_numel, layer_numel.
  cbn [fold_right snd fresh_params module_parameter_sizes weight bias app
       weight_size bias_size numel fold_left].
  rewrite Z.div_1_r. ring.
Qed.

Lemma calc_width_of_table_witness :
  exists net,
    MobileNet_init [[32]; [64]; [128; 128]] true 3 (224, 224) 10 = inr net /\
    _calc_width net = table_weight_count 3 32 [[64]; [128; 128]] 10.
Proof.
  destruct (MobileNet_init [[32]; [64]; [128; 128]] true 3 (224, 224) 10)
    as [e | net] eqn:E; [vm_compute in E; discriminate E|].
  exists net. split; [reflexivity|].
  apply (calc_width_of_table 32 [] [[64]; [128; 128]] true 3 (224, 224) 10 net).
  - discriminate.
  - repeat constructor; discriminate.
  - exact E.
Defined.

(** ** Channel bookkeeping of a constructed network *)








(** ** Replacing a registered module *)

Lemma get_add_module_same name m cs :
  get_module name (add_module name m cs) = Some m.
Proof.
  induction cs as [|[n c] cs IH]; cbn [add_module get_module].
  - now rewrite String.eqb_refl.
  - destruct (String.eqb n name) eqn:E; cbn [get_module]; rewrite E; auto.
Qed.

Lemma get_add_module_other name name' m cs :
  name' <> name -> get_module name' (add_module name m cs) = get_module name' cs.
Proof.
  intros Hne. induction cs as [|[n c] cs IH]; cbn [add_module get_module].
  - destruct (String.eqb_spec name name'); [congruence | reflexivity].
  - destruct (String.eqb_spec n name) as [-> | _]; cbn [get_module].
    + destruct (String.eqb_spec name name'); [congruence | reflexivity].
    + destruct (String.eqb n name'); auto.
Qed.

Lemma add_module_names_present name m cs :
  In name (map fst cs) -> map fst (add_module name m cs) = map fst cs.
Proof.
  induction cs as [|[n c] cs IH]; cbn [add_module map fst]; [intros []|].
  intros [-> | Hin].
  - now rewrite String.eqb_refl.
  - destruct (String.eqb n name); cbn [map fst]; [reflexivity | now rewrite IH].
Qed.

Lemma get_module_in name m cs : get_module name cs = Some m -> In name (map fst cs).
Proof.
  induction cs as [|[n c] cs IH]; cbn [get_module map fst]; [discriminate|].
  destruct (String.eqb_spec n name) as [-> | _]; [now left | right; auto].
Qed.

(** [model.features.final_pool = pool] replaces in place.  It raises only
    when the model has no [features]; otherwise the children of the model
    and of [features] keep their names and their order (when [features]
    had a [final_pool]), [final_pool] is the new pool, and every other
    child of the model and of [features] is the one it was. *)
Theorem set_final_pool_in_place pool l cs :
  (get_module "features" cs = None ->
   set_final_pool pool (Module l cs) = inl AttributeError)
  /\ (forall lf fs,
         get_module "features" cs = Some (Module lf fs) ->
         exists fs',
           set_final_pool pool (Module l cs)
           = inr (Module l (add_module "features" (Module lf fs') cs)) /\
           map fst (add_module "features" (Module lf fs') cs) = map fst cs /\
           (forall n, n <> "features"%string ->
                      get_module n (add_module "features" (Module lf fs') cs)
                      = get_module n cs) /\
           get_module "features" (add_module "features" (Module lf fs') cs)
           = Some (Module lf fs') /\
           get_module "final_pool" fs' = Some pool /\
           (forall n, n <> "final_pool"%string -> get_module n fs' = get_module n fs) /\
           (In "final_pool"%string (map fst fs) -> map fst fs' = map fst fs)).
Proof.
  split.
  - intros H. cbn [set_final_pool]. rewrite H. reflexivity.
  - intros lf fs H. exists (add_module "final_pool" pool fs).
    cbn [set_final_pool]. rewrite H.
    split; [reflexivity|].
    split; [apply add_module_names_present; eapply get_module_in; exact H|].
    split; [intros n Hn; apply get_add_module_other; exact Hn|].
    split; [apply get_add_module_same|].
    split; [apply get_add_module_same|].
    split; [intros n Hn; apply get_add_module_other; exact Hn|].
    apply add_module_names_present.
Qed.

Lemma set_final_pool_in_place_witness :
  set_final_pool (Module (AvgPool2d 4 4) []) (Module MobileNetL [])
  = inl AttributeError
  /\ exists fs',
      set_final_pool (Module (AvgPool2d 4 4) [])
                     (Module MobileNetL
                        [("features",
                          Module Sequential
                                 [("final_pool", Module (AvgPool2d 7 1) []);
                                  ("extra", Module ReLU [])])])
      = inr (Module MobileNetL [("features", Module Sequential fs')]) /\
      map fst fs' = ["final_pool"; "extra"]%string /\
      get_module "final_pool" fs' = Some (Module (AvgPool2d 4 4) []).
Proof.
  split.
  - apply (proj1 (set_final_pool_in_place (Module (AvgPool2d 4 4) []) MobileNetL [])).
    reflexivity.
  - destruct (proj2 (set_final_pool_in_place
                       (Module (AvgPool2d 4 4) []) MobileNetL
                       [("features",
                         Module Sequential
                                [("final_pool", Module (AvgPool2d 7 1) []);
                                 ("extra", Module ReLU [])])])
                    Sequential
                    [("final_pool", Module (AvgPool2d 7 1) []); ("extra", Module ReLU [])]
                    eq_refl)
      as (fs' & Hset & _ & _ & Hfeat & Hpool & _ & Hnames).
    exists fs'. split.
    + rewrite Hset. cbn [add_module String.eqb Ascii.eqb Bool.eqb]. reflexivity.
    + split; [apply Hnames; now left | exact Hpool].
Defined.

(** ** [mobilenet_v1_core50] and [MyMobilenetV1] *)

Ltac positive_table := first [lia | repeat (constructor; try lia)].

Lemma mobilenet_w1_attributes dl pretrained net :
  snd (mobilenet_w1 dl pretrained default_root default_kwargs) = inr net ->
  num_classes net = 1000 /\ in_size net = (224, 224).
Proof.
  intros H. unfold mobilenet_w1, get_mobilenet in H.
  change (version_table "orig") with
    (@inr exn _ ([[32]; [64]; [128; 128]; [256; 256];
                  [512; 512; 512; 512; 512; 512]; [1024; 1024]], false)) in H.
  cbv beta iota in H.
  change (scale_channels float_one _) with
    (@inr exn _ [[32]; [64]; [128; 128]; [256; 256];
                 [512; 512; 512; 512; 512; 512]; [1024; 1024]]) in H.
  cbv beta iota in H.
  cbn [default_kwargs kw_in_channels kw_in_size kw_num_classes] in H.
  rewrite MobileNet_init_succeeds in H by positive_table.
  destruct pretrained; cbn [model_name_missing fst snd] in H.
  - apply bind_inr in H as (st & _ & H).
    assert (Hnet : net = mkMobileNet (224, 224) 1000
                           (modules net) (parameters net)).
    { cbn in H. injection H as <-. reflexivity. }
    rewrite Hnet. split; reflexivity.
  - assert (Hnet : net = mkMobileNet (224, 224) 1000
                           (modules net) (parameters net)).
    { cbn [default_kwargs kw_in_size kw_num_classes] in H.
      injection H as <-. reflexivity. }
    rewrite Hnet. split; reflexivity.
Qed.

Lemma MyMobilenetV1_init_output dl pretrained k self :
  MyMobilenetV1_init dl pretrained k = inr self ->
  output self = Module (Linear 1024 50 false) [].
Proof.
  unfold MyMobilenetV1_init. intros H.
  apply bind_inr in H as (all_layers & _ & H).
  destruct (fold_left _ _ _) as [lat_list end_list].
  cbn in H. injection H as <-. reflexivity.
Qed.

(** [mobilenet_v1_core50] and [MyMobilenetV1] build the same network: for
    every split index, the forward order of the model
    [mobilenet_v1_core50] returns is the latent partition, then the end
    partition, then the classifier of [MyMobilenetV1]; the channels of the
    two partitions are consistent from the 3 input channels to the 1024
    channels the last of them hands on, and the new classifier is a linear
    layer of 1024 input features and 50 outputs without bias.  The
    attribute [num_classes] of the returned model is not updated: it still
    reads 1000. *)
Theorem core50_is_MyMobilenetV1_unsplit dl k self net :
  MyMobilenetV1_init dl true k = inr self ->
  mobilenet_v1_core50 dl = inr net ->
  MobileNet_forward_order (modules net)
  = ((lat_features self ++ end_features self) ++ [output self])%list
  /\ channels_along 3 (lat_features self ++ end_features self) = Some 1024
  /\ output self = Module (Linear 1024 50 false) []
  /\ num_classes net = 1000.
Proof.
  intros Hself Hnet.
  pose proof (MyMobilenetV1_init_output _ _ _ _ Hself) as Hout.
  apply MyMobilenetV1_init_partition in Hself as (all_layers & Hall & Hlat & Hend).
  unfold MyMobilenetV1_all_layers in Hall.
  apply bind_inr in Hall as (base & Hbase & Hall). injection Hall as <-.
  apply MyMobilenetV1_base_model in Hbase. subst base.
  unfold mobilenet_v1_core50 in Hnet.
  apply bind_inr in Hnet as (model & Hmodel & Hnet).
  apply bind_inr in Hnet as (m & Hm & Hnet).
  pose proof (mobilenet_w1_attributes _ _ _ Hmodel) as [Hnc _].
  apply mobilenet_w1_has_modules in Hmodel; [|reflexivity].
  rewrite Hmodel in Hm.
  assert (Hmm : m = MyMobilenetV1_model)
    by (vm_compute in Hm; injection Hm as <-; reflexivity).
  subst m.
  assert (Hmods : modules net
                  = set_output (Module (Linear 1024 50 false) []) MyMobilenetV1_model).
  { cbn in Hnet. injection Hnet as <-. reflexivity. }
  assert (Hncl : num_classes net = num_classes model).
  { cbn in Hnet. injection Hnet as <-. reflexivity. }
  rewrite Hmods, Hlat, Hend, firstn_skipn, Hout.
  split; [vm_compute; reflexivity|].
  split; [vm_compute; reflexivity|].
  split; [reflexivity|].
  rewrite Hncl. exact Hnc.
Qed.

Lemma core50_is_MyMobilenetV1_unsplit_witness :
  exists self net,
    MyMobilenetV1_init keep_parameters true 20 = inr self /\
    mobilenet_v1_core50 keep_parameters = inr net /\
    MobileNet_forward_order (modules net)
    = ((lat_features self ++ end_features self) ++ [output self])%list /\
    num_classes net = 1000.
Proof.
  destruct (MyMobilenetV1_init keep_parameters true 20) as [e | self] eqn:E1;
    [vm_compute in E1; discriminate E1|].
  destruct (mobilenet_v1_core50 keep_parameters) as [e | net] eqn:E2;
    [vm_compute in E2; discriminate E2|].
  exists self, net. split; [reflexivity|]. split; [reflexivity|].
  destruct (core50_is_MyMobilenetV1_unsplit keep_parameters 20 self net E1 E2)
    as (H1 & _ & _ & H3).
  split; [exact H1 | exact H3].
Defined.

(** ** When [MyMobilenetV1] can be constructed *)

Lemma MyMobilenetV1_init_of_all_layers dl pretrained k all_layers :
  MyMobilenetV1_all_layers dl pretrained = inr all_layers ->
  exists self, MyMobilenetV1_init dl pretrained k = inr self.
Proof.
  intros H. unfold MyMobilenetV1_init. rewrite H. cbn [bind].
  unfold enumerate. rewrite partition_loop. eexists. reflexivity.
Qed.

Lemma mobilenet_w1_pretrained dl :
  exists net,
    MobileNet_init [[32]; [64]; [128; 128]; [256; 256];
                    [512; 512; 512; 512; 512; 512]; [1024; 1024]]
                   false 3 (224, 224) 1000 = inr net /\
    modules net = mobilenet_w1_modules /\
    snd (mobilenet_w1 dl true default_root default_kwargs)
    = (st <- dl (parameters net) "mobilenet_w1" default_root ;;
       ret (mkMobileNet (in_size net) (num_classes net) (modules net) st)).
Proof.
  assert (Hnet : forall in_size,
             MobileNet_init [[32]; [64]; [128; 128]; [256; 256];
                             [512; 512; 512; 512; 512; 512]; [1024; 1024]]
                            false 3 in_size 1000
             = inr (mkMobileNet in_size 1000
                      (MobileNet_tree 32 [[64]; [128; 128]; [256; 256];
                                          [512; 512; 512; 512; 512; 512]; [1024; 1024]]
                                      false 3 1000)
                      (map initialised
                           (named_modules ""
                              (MobileNet_tree 32 [[64]; [128; 128]; [256; 256];
                                                  [512; 512; 512; 512; 512; 512];
                                                  [1024; 1024]]
                                              false 3 1000)))))
    by (intros in_size; apply MobileNet_init_succeeds; positive_table).
  eexists. split; [apply Hnet|].
  split; [vm_compute; reflexivity|].
  unfold mobilenet_w1.
  rewrite (get_mobilenet_loads dl "orig" float_one "mobilenet_w1" default_root
             default_kwargs _ false _ _ eq_refl eq_refl (Hnet (224, 224)) eq_refl).
  reflexivity.
Qed.

(** Whatever the split index: without pretrained weights [MyMobilenetV1]
    is always constructed; with pretrained weights the loader is run on
    the parameters of [mobilenet_w1], and [MyMobilenetV1] is constructed
    exactly when the loader returns, and raises the loader's own exception
    when it raises. *)
Theorem MyMobilenetV1_init_outcome dl k :
  (exists self, MyMobilenetV1_init dl false k = inr self)
  /\ exists net,
      MobileNet_init [[32]; [64]; [128; 128]; [256; 256];
                      [512; 512; 512; 512; 512; 512]; [1024; 1024]]
                     false 3 (224, 224) 1000 = inr net /\
      match dl (parameters net) "mobilenet_w1" default_root with
      | inl e => MyMobilenetV1_init dl true k = inl e
      | inr _ => exists self, MyMobilenetV1_init dl true k = inr self
      end.
Proof.
  split.
  - apply (MyMobilenetV1_init_of_all_layers dl false k
             (flatten_layers MyMobilenetV1_model)).
    vm_compute. reflexivity.
  - destruct (mobilenet_w1_pretrained dl) as (net & Hnet & Hmods & Hcall).
    exists net. split; [exact Hnet|].
    destruct (dl (parameters net) "mobilenet_w1" default_root) as [e | st] eqn:Hdl.
    + unfold MyMobilenetV1_init, MyMobilenetV1_all_layers, MyMobilenetV1_base.
      rewrite Hcall. reflexivity.
    + apply (MyMobilenetV1_init_of_all_layers dl true k
               (flatten_layers MyMobilenetV1_model)).
      unfold MyMobilenetV1_all_layers, MyMobilenetV1_base.
      rewrite Hcall. cbn [bind ret modules]. rewrite Hmods. reflexivity.
Qed.

(** ** A width-scale that is not a number *)

(** For either version, a NaN width-scale makes [get_mobilenet] raise the
    [ValueError] of [int] and an infinite one its [OverflowError], before
    the constructor or the loader is called. *)
Theorem get_mobilenet_non_finite_scale
        dl version table fss model_name pretrained root kw (negative : bool) :
  version_table version = inr (table, fss) ->
  get_mobilenet dl version S754_nan model_name pretrained root kw
  = ([], inl (ValueError "cannot convert float NaN to integer"))
  /\ get_mobilenet dl version (S754_infinity negative) model_name pretrained root kw
     = ([], inl OverflowError).
Proof.
  intros Hv. unfold get_mobilenet. rewrite Hv.
  pose proof (version_table_inv _ _ _ Hv) as (_ & c & r & t & ->).
  destruct (version_table_entries _ _ _ (c :: r) c Hv (or_introl eq_refl)
                                  (or_introl eq_refl)) as (k & Hk & ->).
  unfold scale_channels, float_ne. cbn [SFeqb SFcompare negb mapM].
  unfold scale_channel. rewrite float_of_int_pow2 by exact Hk.
  split; [reflexivity|]. destruct negative; reflexivity.
Qed.

Lemma get_mobilenet_non_finite_scale_witness :
  get_mobilenet keep_parameters "fd" S754_nan None true default_root default_kwargs
  = ([], inl (ValueError "cannot convert float NaN to integer"))
  /\ get_mobilenet keep_parameters "fd" (S754_infinity false) None true
                   default_root default_kwargs
     = ([], inl OverflowError).
Proof.
  apply (get_mobilenet_non_finite_scale
           keep_parameters "fd"
           [[32]; [64]; [128; 128]; [256; 256]; [512; 512; 512; 512; 512; 1024]]
           true None true default_root default_kwargs false).
  reflexivity.
Defined.
